(** * TraceCounters: queue length and memory bandwidth time series

    A shallow embedding of [hta/analyzers/trace_counters.py].

    A pandas DataFrame is a list of rows, one record type per frame shape,
    rows in frame order.  The pandas operations the analyzer calls are
    embedded as list functions:
    - [df.query(..)], [df[mask]]      : [filter];
    - [left.join(right, on=..)]       : a left outer join, [join_gpu];
    - [pd.concat]                     : [++] and [concat];
    - [sort_values(by="ts")]          : [sort_values], an insertion sort.
      pandas sorts with its default kind, quicksort, which orders by the
      key only: rows with equal timestamps may come out in any order.  The
      statements below are about what every ascending sort gives; where the
      order of ties matters, the builder is taken over any ascending sort
      ([queue_length_by]) or the statement asks for distinct timestamps;
    - [groupby(key)]                  : [groupby], groups in ascending key
      order, rows without a key (NaN) dropped, frame order kept in a group;
    - [Series.cumsum()]               : [cumsum], and [cumsum_skipna] on a
      float column.

    Integer columns are [Z]; a column that a join can leave empty (NaN) is
    [option Z] (pandas stores such a column as float64; the values are
    the same); the [int64] sum [ts + dur] wraps around ([int64]).  The
    float column [memory_bw_gbps] is binary64 ([PrimFloat.float]): sums are
    rounded as the code's are. *)

From Stdlib Require Import String.
From Stdlib Require Import ZArith QArith Qround List Bool Lia Lqa.
From Stdlib Require Import Floats.
From Stdlib Require Import Permutation Sorted.
From Stdlib Require OrderedTypeEx.
Import ListNotations.
#[local] Set Warnings "-inexact-float".
Local Open Scope string_scope.
Local Open Scope list_scope.
Local Open Scope Z_scope.

(** ** The trace *)

(** One row of the per-rank trace frame: the columns the analyzer reads. *)
Record Event : Type := mkEvent {
  index : Z;
  ts : Z;
  dur : Z;
  pid : Z;
  tid : Z;
  stream : Z;
  name : Z;
  correlation : Z;
  index_correlation : Z;
  memory_bw_gbps : float
}.

(** Modelled from the spec: the kinds [hta.utils.utils.get_kernel_type]
    tells apart (the module is not among the sources); the analyzer tests
    for [MEMORY] only. *)
Inductive KernelType : Type := COMPUTATION | COMMUNICATION | MEMORY.

Definition KernelType_eqb (a b : KernelType) : bool :=
  match a, b with
  | COMPUTATION, COMPUTATION | COMMUNICATION, COMMUNICATION | MEMORY, MEMORY => true
  | _, _ => false
  end.

(** Modelled from the spec: the event source [hta.common.trace.Trace] (not
    among the sources), as far as the analyzer consumes it:
    [t.get_trace(rank)], the flat event table of a rank;
    [t.symbol_table.get_sym_id_map()], used through [dict.get(name, None)];
    and [t.symbol_table.get_sym_table()], indexed by name id. *)
Record Trace : Type := mkTrace {
  get_trace : Z -> list Event;
  get_sym_id_map : string -> option Z;
  get_sym_table : Z -> string
}.

(** ** pandas operations *)

Section SortValues.
Context {R : Type} (by_ : R -> Z).

Fixpoint insert_by (x : R) (l : list R) : list R :=
  match l with
  | [] => [x]
  | y :: l' => if by_ x <=? by_ y then x :: l else y :: insert_by x l'
  end.

(** [df.sort_values(by=..)], ascending. *)
Definition sort_values (l : list R) : list R := fold_right insert_by [] l.

(** The order the sorted frame is in. *)
Definition le_by (a b : R) : Prop := by_ a <= by_ b.
End SortValues.

Section GroupBy.
Context {K R : Type} (cmp : K -> K -> comparison) (key : R -> option K).

Fixpoint insert_key (k : K) (l : list K) : list K :=
  match l with
  | [] => [k]
  | x :: l' =>
      match cmp k x with
      | Lt => k :: l
      | Eq => l
      | Gt => x :: insert_key k l'
      end
  end.

Fixpoint keys_of (l : list R) : list K :=
  match l with
  | [] => []
  | r :: l' =>
      match key r with
      | Some k => insert_key k (keys_of l')
      | None => keys_of l'
      end
  end.

(** The order of the group keys. *)
Definition lt_key (a b : K) : Prop := cmp a b = Lt.

Definition has_key (k : K) (r : R) : bool :=
  match key r with
  | Some k' => match cmp k' k with Eq => true | _ => false end
  | None => false
  end.

(** [df.groupby(key)]: the (key, sub-frame) pairs the iteration yields. *)
Definition groupby (l : list R) : list (K * list R) :=
  map (fun k => (k, filter (has_key k) l)) (keys_of l).
End GroupBy.

Section Cumsum.
Context {V : Type} (add : V -> V -> V).

Fixpoint cumsum_from (acc : V) (l : list V) : list V :=
  match l with
  | [] => []
  | x :: l' => add acc x :: cumsum_from (add acc x) l'
  end.

(** [Series.cumsum()]. *)
Definition cumsum (l : list V) : list V :=
  match l with
  | [] => []
  | x :: l' => x :: cumsum_from x l'
  end.
End Cumsum.

(** [Series.cumsum()] on a float64 column ([skipna=True]): a NaN counts as
    [0.0] in the running sum and stays NaN in the result. *)
Definition fill_zero (x : float) : float := if PrimFloat.is_nan x then 0%float else x.

Definition cumsum_skipna (l : list float) : list float :=
  map (fun p => if PrimFloat.is_nan (fst p) then PrimFloat.nan else snd p)
      (combine l (cumsum PrimFloat.add (map fill_zero l))).

(** An [int64] result: the integer reduced to [-2^63 .. 2^63 - 1]. *)
Definition int64 (z : Z) : Z := (z + 2 ^ 63) mod 2 ^ 64 - 2 ^ 63.

(** ** Queue length *)

(** A row of [merged_df]: [queue] is the delta; [stream], [pid] and [tid]
    are empty for a runtime call the join matched with no GPU event. *)
Record DeltaRow : Type := mkDeltaRow {
  d_index : Z;
  d_ts : Z;
  d_pid : option Z;
  d_tid : option Z;
  d_stream : option Z;
  d_correlation : Z;
  d_queue : Z
}.

(** A row of a [stream_df] once [queue_length] is set. *)
Record StreamRow : Type := mkStreamRow {
  s_delta : DeltaRow;
  s_queue_length : Z
}.

(** A row of the returned frame:
    [[["ts", "pid", "tid", "stream", "queue_length"]]], indexed by [index]. *)
Record QueueLengthRow : Type := mkQueueLengthRow {
  q_index : Z;
  q_ts : Z;
  q_pid : option Z;
  q_tid : option Z;
  q_stream : option Z;
  q_queue_length : Z
}.

(** [name == @id], where [id] may be [None]. *)
Definition name_is (id : option Z) (e : Event) : bool :=
  match id with
  | Some i => name e =? i
  | None => false
  end.

Definition is_runtime_call (t : Trace) (e : Event) : bool :=
  (name_is (get_sym_id_map t "cudaMemsetAsync") e
   || name_is (get_sym_id_map t "cudaMemcpyAsync") e
   || name_is (get_sym_id_map t "cudaLaunchKernel") e)
  && (0 <? index_correlation e).

Definition runtime_calls (t : Trace) (trace_df : list Event) : list Event :=
  filter (is_runtime_call t) trace_df.

Definition is_gpu_kernel (e : Event) : bool := negb (stream e =? -1).

Definition gpu_kernels (trace_df : list Event) : list Event :=
  filter is_gpu_kernel trace_df.

(** A [gpu_kernels] row with [queue = -1]. *)
Definition gpu_row (g : Event) : DeltaRow :=
  mkDeltaRow (index g) (ts g) (Some (pid g)) (Some (tid g)) (Some (stream g))
             (correlation g) (-1).

(** A [runtime_calls] row with [queue = 1], joined with one GPU event. *)
Definition joined_row (r g : Event) : DeltaRow :=
  mkDeltaRow (index r) (ts r) (Some (pid g)) (Some (tid g)) (Some (stream g))
             (correlation r) 1.

Definition unmatched_row (r : Event) : DeltaRow :=
  mkDeltaRow (index r) (ts r) None None None (correlation r) 1.

Definition correlated (r g : Event) : bool := correlation g =? correlation r.

(** The rows [runtime_calls.join(gpu_kernels[..].set_index("correlation"),
    on="correlation")] makes of one runtime call: one per GPU event with
    the same correlation, or one with empty columns when there is none. *)
Definition join_one (gpus : list Event) (r : Event) : list DeltaRow :=
  match filter (correlated r) gpus with
  | [] => [unmatched_row r]
  | gs => map (joined_row r) gs
  end.

Definition join_gpu (calls gpus : list Event) : list DeltaRow :=
  flat_map (join_one gpus) calls.

Definition concat_df (t : Trace) (trace_df : list Event) : list DeltaRow :=
  join_gpu (runtime_calls t trace_df) (gpu_kernels trace_df)
  ++ map gpu_row (gpu_kernels trace_df).

Definition merged_df (t : Trace) (trace_df : list Event) : list DeltaRow :=
  sort_values d_ts (concat_df t trace_df).

(** [stream_df["queue_length"] = stream_df["queue"].cumsum()]. *)
Definition with_queue_length (stream_df : list DeltaRow) : list StreamRow :=
  map (fun p => mkStreamRow (fst p) (snd p))
      (combine stream_df (cumsum Z.add (map d_queue stream_df))).

Definition result_df_list (t : Trace) (trace_df : list Event) : list (list StreamRow) :=
  map (fun g => with_queue_length (snd g))
      (groupby Z.compare d_stream (merged_df t trace_df)).

Definition project_queue_length (r : StreamRow) : QueueLengthRow :=
  let d := s_delta r in
  mkQueueLengthRow (d_index d) (d_ts d) (d_pid d) (d_tid d) (d_stream d)
                   (s_queue_length r).

Definition _get_queue_length_time_series_for_rank (t : Trace) (rank : Z)
  : option (list QueueLengthRow) :=
  match result_df_list t (get_trace t rank) with
  | [] => None
  | l => Some (map project_queue_length (concat l))
  end.

(** ** The queue length builder over any ascending sort *)

(** The builder with [sort] in the place of [sort_values(by="ts")]. *)
Section AnySort.
Variable sort : list DeltaRow -> list DeltaRow.

Definition merged_df_by (t : Trace) (trace_df : list Event) : list DeltaRow :=
  sort (concat_df t trace_df).

Definition result_df_list_by (t : Trace) (trace_df : list Event) : list (list StreamRow) :=
  map (fun g => with_queue_length (snd g))
      (groupby Z.compare d_stream (merged_df_by t trace_df)).

Definition queue_length_by (t : Trace) (rank : Z) : option (list QueueLengthRow) :=
  match result_df_list_by t (get_trace t rank) with
  | [] => None
  | l => Some (map project_queue_length (concat l))
  end.
End AnySort.

(** What [sort_values(by="ts")] promises: the rows of the frame, in
    ascending timestamp order. *)
Definition ascending (sort : list DeltaRow -> list DeltaRow) : Prop :=
  forall l, StronglySorted (le_by d_ts) (sort l) /\ Permutation (sort l) l.

(** An ascending sort that is not stable: where rows with equal timestamps
    end up depends on the length of the frame. *)
Definition unstable_sort (l : list DeltaRow) : list DeltaRow :=
  if Nat.even (length l) then sort_values d_ts l else sort_values d_ts (rev l).

(** ** Per-rank orchestration *)

(** A Python [dict] keyed by rank, in insertion order: setting a key that is
    present replaces its value in place. *)
Fixpoint dict_set {V : Type} (k : Z) (v : V) (d : list (Z * V)) : list (Z * V) :=
  match d with
  | [] => [(k, v)]
  | (k', v') :: d' => if k' =? k then (k, v) :: d' else (k', v') :: dict_set k v d'
  end.

(** [{rank: f(rank) for rank in ranks}]. *)
Definition dict_comprehension {V : Type} (f : Z -> V) (ranks : list Z) : list (Z * V) :=
  fold_left (fun d rank => dict_set rank (f rank) d) ranks [].

(** [dict(filter(lambda x: x[1] is not None, result.items()))]. *)
Fixpoint filter_not_None {V : Type} (items : list (Z * option V)) : list (Z * V) :=
  match items with
  | [] => []
  | (k, Some v) :: items' => (k, v) :: filter_not_None items'
  | (_, None) :: items' => filter_not_None items'
  end.

(** [if ranks is None or len(ranks) == 0: ranks = [0]]. *)
Definition default_ranks (ranks : option (list Z)) : list Z :=
  match ranks with
  | None | Some [] => [0]
  | Some l => l
  end.

Definition get_queue_length_time_series (t : Trace) (ranks : option (list Z))
  : list (Z * list QueueLengthRow) :=
  filter_not_None
    (dict_comprehension (_get_queue_length_time_series_for_rank t) (default_ranks ranks)).

(** ** Memory bandwidth *)

(** A row of [memcpy_kernels]: [k_name] is the relabelled name. *)
Record MemcpyKernel : Type := mkMemcpyKernel {
  k_ts : Z;
  k_name : string;
  k_dur : Z;
  k_pid : Z;
  k_memory_bw_gbps : float
}.

(** A row of [membw_time_series] and of the returned frame:
    [[["ts", "pid", "name", "memory_bw_gbps"]]]. *)
Record MemBwRow : Type := mkMemBwRow {
  b_ts : Z;
  b_pid : Z;
  b_name : string;
  b_memory_bw_gbps : float
}.

(** [DataFrame.describe()] of one group of an integer column (the queue
    lengths), over the rationals. *)
Record Describe : Type := mkDescribe {
  st_count : Z;
  st_mean : Q;
  st_std : option Q;
  st_min : Q;
  st_25 : Q;
  st_50 : Q;
  st_75 : Q;
  st_max : Q
}.

(** [DataFrame.describe()] of one group of the float64 column
    [memory_bw_gbps]. *)
Record FloatDescribe : Type := mkFloatDescribe {
  fd_count : Z;
  fd_mean : float;
  fd_std : float;
  fd_min : float;
  fd_25 : float;
  fd_50 : float;
  fd_75 : float;
  fd_max : float
}.

(** A row of a summary frame, indexed by [(rank, name)]. *)
Record SummaryRow : Type := mkSummaryRow {
  sm_rank : Z;
  sm_name : string;
  sm_stats : FloatDescribe
}.

Definition Zsum (l : list Z) : Z := fold_right Z.add 0 l.

Definition Qsum (l : list Q) : Q := fold_right Qplus 0%Q l.

(** pandas' [describe()] of a non-empty integer column, after its
    documentation: count, mean, sample standard deviation (none for a single
    value), minimum, quartiles by linear interpolation, maximum.  The count,
    the minimum and the maximum of queue lengths are exact in float64 as
    they are here; the mean, the standard deviation and the quartiles are
    the unrounded values. *)
Section Describe.
(** The square root [std] takes. *)
Variable sqrt : Q -> Q.

Definition Qmin_list (x : Q) (l : list Q) : Q :=
  fold_left (fun m y => if Qle_bool m y then m else y) l x.

Definition Qmax_list (x : Q) (l : list Q) : Q :=
  fold_left (fun m y => if Qle_bool y m then m else y) l x.

Fixpoint Qinsert (x : Q) (l : list Q) : list Q :=
  match l with
  | [] => [x]
  | y :: l' => if Qle_bool x y then x :: l else y :: Qinsert x l'
  end.

Definition Qsort (l : list Q) : list Q := fold_right Qinsert [] l.

(** A percentile by linear interpolation between the two closest ranks. *)
Definition quantile (sorted : list Q) (q : Q) : Q :=
  let h := (inject_Z (Z.of_nat (length sorted) - 1) * q)%Q in
  let lo := Qfloor h in
  let vlo := nth (Z.to_nat lo) sorted 0%Q in
  let vhi := nth (Z.to_nat (lo + 1)) sorted vlo in
  (vlo + (vhi - vlo) * (h - inject_Z lo))%Q.

Definition describe (x : Q) (l : list Q) : Describe :=
  let n := Z.of_nat (length (x :: l)) in
  let m := (Qsum (x :: l) / inject_Z n)%Q in
  let sorted := Qsort (x :: l) in
  mkDescribe n m
    (if n =? 1 then None
     else Some (sqrt (Qsum (map (fun y => (y - m) * (y - m)) (x :: l))
                      / inject_Z (n - 1)))%Q)
    (Qmin_list x l)
    (quantile sorted (1 # 4)) (quantile sorted (1 # 2)) (quantile sorted (3 # 4))
    (Qmax_list x l).
End Describe.

Section MemoryBandwidth.
(** [hta.utils.utils.get_kernel_type] and [get_memory_kernel_type]. *)
Variable get_kernel_type : string -> KernelType.
Variable get_memory_kernel_type : string -> string.

Definition is_memory_kernel (t : Trace) (e : Event) : bool :=
  KernelType_eqb (get_kernel_type (get_sym_table t (name e))) MEMORY.

(** [memcpy_kernels.loc[memcpy_kernels.dur == 0, ["dur"]] = 1]. *)
Definition round_up_dur (d : Z) : Z := if d =? 0 then 1 else d.

Definition memcpy_kernel (t : Trace) (e : Event) : MemcpyKernel :=
  mkMemcpyKernel (ts e) (get_memory_kernel_type (get_sym_table t (name e)))
                 (round_up_dur (dur e)) (pid e) (memory_bw_gbps e).

Definition memcpy_kernels (t : Trace) (trace_df : list Event) : list MemcpyKernel :=
  map (memcpy_kernel t) (filter (is_memory_kernel t) (gpu_kernels trace_df)).

Definition start_row (k : MemcpyKernel) : MemBwRow :=
  mkMemBwRow (k_ts k) (k_pid k) (k_name k) (k_memory_bw_gbps k).

(** [membw_time_series_b.ts + membw_time_series_b.dur], an [int64] sum, and
    [-membw_time_series_b.memory_bw_gbps]. *)
Definition end_row (k : MemcpyKernel) : MemBwRow :=
  mkMemBwRow (int64 (k_ts k + k_dur k)) (k_pid k) (k_name k) (- k_memory_bw_gbps k)%float.

Definition membw_time_series_a (ks : list MemcpyKernel) : list MemBwRow :=
  map start_row ks.

Definition membw_time_series_b (ks : list MemcpyKernel) : list MemBwRow :=
  map end_row ks.

Definition membw_time_series (t : Trace) (trace_df : list Event) : list MemBwRow :=
  let ks := memcpy_kernels t trace_df in
  sort_values b_ts (membw_time_series_a ks ++ membw_time_series_b ks).

(** [membw_df.memory_bw_gbps = membw_df.memory_bw_gbps.cumsum()]. *)
Definition with_cumsum_bw (membw_df : list MemBwRow) : list MemBwRow :=
  map (fun p => mkMemBwRow (b_ts (fst p)) (b_pid (fst p)) (b_name (fst p)) (snd p))
      (combine membw_df (cumsum_skipna (map b_memory_bw_gbps membw_df))).

Definition by_name (r : MemBwRow) : option string := Some (b_name r).

Definition membw_result_df_list (t : Trace) (trace_df : list Event)
  : list (list MemBwRow) :=
  map (fun g => with_cumsum_bw (snd g))
      (groupby String.compare by_name (membw_time_series t trace_df)).

Definition _get_memory_bw_time_series_for_rank (t : Trace) (rank : Z)
  : option (list MemBwRow) :=
  match membw_result_df_list t (get_trace t rank) with
  | [] => None
  | l => Some (concat l)
  end.

Definition get_memory_bw_time_series (t : Trace) (ranks : option (list Z))
  : list (Z * list MemBwRow) :=
  filter_not_None
    (dict_comprehension (_get_memory_bw_time_series_for_rank t) (default_ranks ranks)).

(** [Series.mean], [Series.std] and [Series.quantile] of pandas on a
    float64 column: NumPy's summation, interpolation and square root, which
    are not code of the analyzer. *)
Variable mean : list float -> float.
Variable std : list float -> float.
Variable quantile : float -> list float -> float.

(** [rank_df[rank_df.memory_bw_gbps > 0]]: a NaN is not kept. *)
Definition positive_bw (r : MemBwRow) : bool := (0 <? b_memory_bw_gbps r)%float.

Definition fmin_list (x : float) (l : list float) : float :=
  fold_left (fun m y => if (m <=? y)%float then m else y) l x.

Definition fmax_list (x : float) (l : list float) : float :=
  fold_left (fun m y => if (y <=? m)%float then m else y) l x.

(** [describe()] of a non-empty float64 column without NaN, as the kept
    rows are: the count, the least and the greatest value are exact; the
    other five statistics are pandas' own. *)
Definition describe_float (x : float) (l : list float) : FloatDescribe :=
  mkFloatDescribe (Z.of_nat (length (x :: l))) (mean (x :: l)) (std (x :: l))
                  (fmin_list x l)
                  (quantile 0.25 (x :: l)) (quantile 0.5 (x :: l)) (quantile 0.75 (x :: l))
                  (fmax_list x l).

Definition describe_group (rank : Z) (g : string * list MemBwRow) : list SummaryRow :=
  match map b_memory_bw_gbps (snd g) with
  | [] => []
  | x :: l => [mkSummaryRow rank (fst g) (describe_float x l)]
  end.

(** The frame one iteration of the loop of [get_memory_bw_summary]
    appends to [results_list]. *)
Definition memory_bw_summary_of_rank (rank : Z) (rank_df : list MemBwRow)
  : list SummaryRow :=
  flat_map (describe_group rank)
           (groupby String.compare by_name (filter positive_bw rank_df)).

Definition get_memory_bw_summary (t : Trace) (ranks : option (list Z))
  : option (list SummaryRow) :=
  match map (fun item => memory_bw_summary_of_rank (fst item) (snd item))
            (get_memory_bw_time_series t (Some (default_ranks ranks))) with
  | [] => None
  | results_list => Some (concat results_list)
  end.
End MemoryBandwidth.

(** ** Queue length summary *)

(** A row of the queue length summary frame, indexed by [(rank, stream)]. *)
Record QueueSummaryRow : Type := mkQueueSummaryRow {
  qs_rank : Z;
  qs_stream : Z;
  qs_stats : Describe
}.

Section QueueLengthSummary.
Variable sqrt : Q -> Q.

Definition describe_stream (rank : Z) (g : Z * list QueueLengthRow) : list QueueSummaryRow :=
  match map (fun r => inject_Z (q_queue_length r)) (snd g) with
  | [] => []
  | x :: l => [mkQueueSummaryRow rank (fst g) (describe sqrt x l)]
  end.

(** The frame one iteration of the loop of [get_queue_length_summary]
    appends to [results_list]:
    [rank_df[["rank", "stream", "queue_length"]].groupby(["rank", "stream"]).describe()]
    with the rank column set to [rank]. *)
Definition queue_length_summary_of_rank (rank : Z) (rank_df : list QueueLengthRow)
  : list QueueSummaryRow :=
  flat_map (describe_stream rank) (groupby Z.compare q_stream rank_df).

Definition get_queue_length_summary (t : Trace) (ranks : option (list Z))
  : option (list QueueSummaryRow) :=
  match map (fun item => queue_length_summary_of_rank (fst item) (snd item))
            (get_queue_length_time_series t (Some (default_ranks ranks))) with
  | [] => None
  | results_list => Some (concat results_list)
  end.
End QueueLengthSummary.

(** ** Reading the returned frames *)

(** A cell of a frame. *)
Inductive Cell : Type :=
| Int (z : Z)
| Float (x : float)
| Str (s : string)
| NaN.

Definition int_cell (o : option Z) : Cell :=
  match o with
  | Some z => Int z
  | None => NaN
  end.

(** [df[c]] on a row of the queue length frame; [None] when the frame has
    no column [c]. *)
Definition queue_length_column (c : string) (r : QueueLengthRow) : option Cell :=
  if String.eqb c "ts" then Some (Int (q_ts r))
  else if String.eqb c "pid" then Some (int_cell (q_pid r))
  else if String.eqb c "tid" then Some (int_cell (q_tid r))
  else if String.eqb c "stream" then Some (int_cell (q_stream r))
  else if String.eqb c "queue_length" then Some (Int (q_queue_length r))
  else None.

(** [df[c]] on a row of the memory bandwidth frame. *)
Definition memory_bw_column (c : string) (r : MemBwRow) : option Cell :=
  if String.eqb c "ts" then Some (Int (b_ts r))
  else if String.eqb c "pid" then Some (Int (b_pid r))
  else if String.eqb c "name" then Some (Str (b_name r))
  else if String.eqb c "memory_bw_gbps" then Some (Float (b_memory_bw_gbps r))
  else None.

(** The rows of one stream, of one channel. *)
Definition rows_of_stream (s : Z) (df : list QueueLengthRow) : list QueueLengthRow :=
  filter (has_key Z.compare q_stream s) df.

Definition rows_of_name (nm : string) (df : list MemBwRow) : list MemBwRow :=
  filter (has_key String.compare by_name nm) df.

(** The step function a channel's rows stand for: the value of the last row
    at or before [T], zero before the first row. *)
Definition value_at (nm : string) (T : Z) (df : list MemBwRow) : float :=
  last (map b_memory_bw_gbps (filter (fun r => b_ts r <=? T) (rows_of_name nm df)))
       0%float.

(** ** Notions the proofs use *)

(** A [merged_df] row that [groupby("stream")] keeps. *)
Definition has_stream (d : DeltaRow) : bool :=
  match d_stream d with Some _ => true | None => false end.

(** A dict whose every value is [f] of its key. *)
Definition from_f {V : Type} (f : Z -> V) (d : list (Z * V)) : Prop :=
  Forall (fun kv => snd kv = f (fst kv)) d.

(** The event [e] with another duration. *)
Definition with_dur (e : Event) (d : Z) : Event :=
  mkEvent (index e) (ts e) d (pid e) (tid e) (stream e) (name e) (correlation e)
          (index_correlation e) (memory_bw_gbps e).

(** The delta rows of channel [nm] at or before [T], in frame order. *)
Definition deltas_upto (nm : string) (T : Z) (l : list MemBwRow) : list MemBwRow :=
  filter (fun r => b_ts r <=? T) (filter (has_key String.compare by_name nm) l).

(** The delta rows a transfer has put on channel [nm] by [T]: its start
    row once it has begun, its end row once it has ended. *)
Definition deltas_by (nm : string) (T : Z) (k : MemcpyKernel) : list MemBwRow :=
  filter (fun r => b_ts r <=? T)
         (filter (has_key String.compare by_name nm) [start_row k; end_row k]).

(** The value a float64 running sum ends at: the last row of the
    [cumsum], [0.0] for no row. *)
Definition running_sum (l : list float) : float := last (cumsum_skipna l) 0%float.

(** The ranks of a list in the order they are first met, those of [seen]
    left out. *)
Fixpoint first_seen (seen ranks : list Z) : list Z :=
  match ranks with
  | [] => []
  | r :: ranks' =>
      if existsb (Z.eqb r) seen then first_seen seen ranks'
      else r :: first_seen (seen ++ [r]) ranks'
  end.

(** The order of the queue length frame: by stream, then by timestamp. *)
Definition stream_then_ts (a b : QueueLengthRow) : Prop :=
  match q_stream a, q_stream b with
  | Some sa, Some sb => sa < sb \/ (sa = sb /\ q_ts a <= q_ts b)
  | _, _ => False
  end.

(** The order of the bandwidth frame: by channel name, then by timestamp. *)
Definition name_then_ts (a b : MemBwRow) : Prop :=
  String.compare (b_name a) (b_name b) = Lt
  \/ (b_name a = b_name b /\ b_ts a <= b_ts b).

(** The counterpart of [lower_at] for the queue deltas. *)
Definition lower_queue_at (T : Z) (d : DeltaRow) : Z :=
  if d_ts d <? T then d_queue d
  else if d_ts d =? T then Z.min (d_queue d) 0
  else 0.

(** ** The contract in the specification's words *)

(** The [+1] rows of a selected runtime call: one for each GPU event that
    shares its correlation id. *)
Definition enqueue_deltas (t : Trace) (trace_df : list Event) (e : Event) : list DeltaRow :=
  if is_runtime_call t e
  then map (joined_row e) (filter (correlated e) (gpu_kernels trace_df))
  else [].

(** The [-1] row of an event that ran on a stream. *)
Definition execute_deltas (e : Event) : list DeltaRow :=
  if is_gpu_kernel e then [gpu_row e] else [].

(** The [+1] rows of the grouped frames that stem from event [e]. *)
Definition enqueued_by (e : Event) (rows : list StreamRow) : list StreamRow :=
  filter (fun r => (d_index (s_delta r) =? index e) && (d_queue (s_delta r) =? 1)) rows.

Section InFlight.
Variable get_kernel_type : string -> KernelType.
Variable get_memory_kernel_type : string -> string.

(** A device-side event of the memory kind. *)
Definition qualifies (t : Trace) (e : Event) : bool :=
  is_gpu_kernel e && is_memory_kernel get_kernel_type t e.

(** A qualifying transfer of channel [nm] that has begun and not ended at [T]. *)
Definition in_flight (t : Trace) (nm : string) (T : Z) (e : Event) : bool :=
  qualifies t e
  && String.eqb (get_memory_kernel_type (get_sym_table t (name e))) nm
  && (ts e <=? T) && (T <? ts e + round_up_dur (dur e)).

Definition in_flight_bw (t : Trace) (nm : string) (T : Z) (trace_df : list Event) : float :=
  fold_left PrimFloat.add (map memory_bw_gbps (filter (in_flight t nm T) trace_df)) 0%float.
End InFlight.

(** ** Scenarios *)

(** The symbol ids of the three enqueue operations. *)
Definition sym_ids (s : string) : option Z :=
  if String.eqb s "cudaLaunchKernel" then Some 1
  else if String.eqb s "cudaMemcpyAsync" then Some 2
  else if String.eqb s "cudaMemsetAsync" then Some 3
  else None.

(** Scenario A: launches at 10 and 20, their kernels at 15 and 25 on stream 0. *)
Definition scenario_A_events : list Event :=
  [ mkEvent 0 10 2 100 200 (-1) 1 7 1 0;
    mkEvent 1 15 3 0 7 0 10 7 0 0;
    mkEvent 2 20 2 100 200 (-1) 1 8 3 0;
    mkEvent 3 25 3 0 7 0 10 8 2 0 ].

Definition scenario_A : Trace :=
  mkTrace (fun _ => scenario_A_events) sym_ids (fun _ => "kernel").

(** The classifier of the scenarios: one memory operation, a host-to-device
    copy. *)
Definition classify (s : string) : KernelType :=
  if String.eqb s "Memcpy HtoD (Pageable -> Device)" then MEMORY else COMPUTATION.

Definition channel (s : string) : string :=
  if String.eqb s "Memcpy HtoD (Pageable -> Device)" then "Memcpy HtoD"
  else "Memcpy Unknown".

Definition sym_names (i : Z) : string :=
  if i =? 20 then "Memcpy HtoD (Pageable -> Device)" else "kernel".

(** Scenario C: transfers [0,10] at 4.0 and [5,15] at 6.0 on one channel. *)
Definition scenario_C_events : list Event :=
  [ mkEvent 0 0 10 0 7 7 20 1 0 4;
    mkEvent 1 5 10 0 7 7 20 2 0 6 ].

Definition scenario_C : Trace := mkTrace (fun _ => scenario_C_events) sym_ids sym_names.

(** A launch whose correlation id no GPU event carries. *)
Definition lone_launch : Event := mkEvent 0 10 2 100 200 (-1) 1 7 1 0.

Definition lone_launch_trace : Trace := mkTrace (fun _ => [lone_launch]) sym_ids sym_names.

(** A GPU event no runtime call launched. *)
Definition lone_kernel : Event := mkEvent 0 15 3 0 7 0 10 7 0 0.

Definition lone_kernel_trace : Trace := mkTrace (fun _ => [lone_kernel]) sym_ids sym_names.

(** A transfer of duration zero. *)
Definition instant_copy : Event := mkEvent 0 100 0 0 7 7 20 1 0 8.

Definition instant_copy_trace : Trace := mkTrace (fun _ => [instant_copy]) sym_ids sym_names.

(** A launch whose correlation id two GPU events carry, on streams 0 and 1. *)
Definition twin_launch : Event := mkEvent 0 10 2 100 200 (-1) 1 7 1 0.

Definition twin_events : list Event :=
  [ twin_launch;
    mkEvent 1 15 3 0 7 0 10 7 0 0;
    mkEvent 2 16 3 0 8 1 10 7 0 0 ].

Definition twin_trace : Trace := mkTrace (fun _ => twin_events) sym_ids sym_names.

(** Scenario A with one more launch, whose correlation id matches nothing. *)
Definition missed_launch : Event := mkEvent 4 12 2 100 200 (-1) 1 99 5 0.

Definition scenario_A_missed : Trace :=
  mkTrace (fun _ => firstn 2 scenario_A_events ++ missed_launch :: skipn 2 scenario_A_events)
          sym_ids (fun _ => "kernel").




(** Two overlapping transfers on one channel, [0,100] at 0.1 and [50,150]
    at 0.2. *)
Definition rounding_events : list Event :=
  [ mkEvent 0 0 100 0 7 7 20 1 0 0.1;
    mkEvent 1 50 100 0 7 7 20 2 0 0.2 ].

Definition rounding_trace : Trace := mkTrace (fun _ => rounding_events) sym_ids sym_names.

(** A transfer that moved nothing: bandwidth zero. *)
Definition idle_copy : Event := mkEvent 0 100 5 0 7 7 20 1 0 0.

Definition idle_copy_trace : Trace := mkTrace (fun _ => [idle_copy]) sym_ids sym_names.

(** * Properties *)

(** ** Sorting *)

Section SortValuesFacts.
Context {R : Type} (by_ : R -> Z).

Lemma insert_by_perm (x : R) (l : list R) :
  Permutation (insert_by by_ x l) (x :: l).
Proof.
  induction l as [|y l IH]; simpl; [reflexivity|].
  destruct (by_ x <=? by_ y); [reflexivity|].
  rewrite IH. apply perm_swap.
Qed.

Lemma sort_values_perm (l : list R) : Permutation (sort_values by_ l) l.
Proof.
  induction l as [|x l IH]; simpl; [reflexivity|].
  rewrite insert_by_perm. now apply perm_skip.
Qed.

Lemma insert_by_sorted (x : R) (l : list R) :
  StronglySorted (le_by by_) l -> StronglySorted (le_by by_) (insert_by by_ x l).
Proof.
  induction 1 as [|y l Hl IH Hy]; simpl.
  - constructor; constructor.
  - destruct (by_ x <=? by_ y) eqn:E.
    + apply Z.leb_le in E. constructor.
      * now constructor.
      * constructor; [exact E|].
        eapply Forall_impl; [|exact Hy]. unfold le_by. intros; lia.
    + apply Z.leb_gt in E. constructor; [exact IH|].
      eapply Permutation_Forall; [symmetry; apply insert_by_perm|].
      constructor; [unfold le_by; lia|exact Hy].
Qed.

Lemma sort_values_sorted (l : list R) : StronglySorted (le_by by_) (sort_values by_ l).
Proof.
  induction l as [|x l IH]; simpl; [constructor|now apply insert_by_sorted].
Qed.

Lemma StronglySorted_filter (p : R -> bool) (l : list R) :
  StronglySorted (le_by by_) l -> StronglySorted (le_by by_) (filter p l).
Proof.
  induction 1 as [|y l Hl IH Hy]; simpl; [constructor|].
  destruct (p y); [|exact IH].
  constructor; [exact IH|].
  apply Forall_forall. intros z Hz. apply filter_In in Hz.
  rewrite Forall_forall in Hy. now apply Hy.
Qed.

(** This sort commutes with dropping rows. *)
Lemma filter_insert_by (p : R -> bool) (x : R) (l : list R) :
  StronglySorted (le_by by_) l ->
  filter p (insert_by by_ x l)
  = if p x then insert_by by_ x (filter p l) else filter p l.
Proof.
  induction 1 as [|y l Hl IH Hy]; simpl.
  - now destruct (p x).
  - destruct (by_ x <=? by_ y) eqn:E; simpl.
    + destruct (p x) eqn:Px; [|reflexivity].
      destruct (p y) eqn:Py; simpl; [now rewrite E|].
      destruct (filter p l) as [|z l'] eqn:F; [reflexivity|].
      simpl.
      assert (Hz : In z (filter p l)) by (rewrite F; now left).
      apply filter_In in Hz. rewrite Forall_forall in Hy.
      apply Z.leb_le in E. pose proof (Hy z (proj1 Hz)) as Hyz. unfold le_by in Hyz.
      replace (by_ x <=? by_ z) with true by (symmetry; apply Z.leb_le; lia).
      reflexivity.
    + rewrite IH. destruct (p y) eqn:Py; destruct (p x) eqn:Px; simpl;
        try rewrite E; reflexivity.
Qed.

Lemma filter_sort_values (p : R -> bool) (l : list R) :
  filter p (sort_values by_ l) = sort_values by_ (filter p l).
Proof.
  induction l as [|x l IH]; simpl; [reflexivity|].
  rewrite filter_insert_by by apply sort_values_sorted.
  rewrite IH. now destruct (p x).
Qed.
End SortValuesFacts.

(** ** Grouping *)

Section GroupByFacts.
Context {K R : Type} (cmp : K -> K -> comparison) (key : R -> option K).
Hypothesis cmp_eq : forall a b, cmp a b = Eq <-> a = b.
Hypothesis cmp_antisym : forall a b, cmp a b = CompOpp (cmp b a).
Hypothesis cmp_trans : forall a b c, cmp a b = Lt -> cmp b c = Lt -> cmp a c = Lt.

Lemma cmp_refl (a : K) : cmp a a = Eq.
Proof. now apply cmp_eq. Qed.

Lemma has_key_true {R0 : Type} (key0 : R0 -> option K) (k : K) (r : R0) :
  has_key cmp key0 k r = true <-> key0 r = Some k.
Proof.
  unfold has_key. destruct (key0 r) as [k'|]; [|split; discriminate].
  destruct (cmp k' k) eqn:E.
  - apply cmp_eq in E. subst. tauto.
  - split; [discriminate|]. intros [= ->]. rewrite cmp_refl in E. discriminate.
  - split; [discriminate|]. intros [= ->]. rewrite cmp_refl in E. discriminate.
Qed.

Lemma In_insert_key (k x : K) (l : list K) :
  In k (insert_key cmp x l) <-> k = x \/ In k l.
Proof.
  induction l as [|y l IH]; simpl; [intuition|].
  destruct (cmp x y) eqn:E; simpl.
  - apply cmp_eq in E. subst. intuition.
  - intuition.
  - rewrite IH. intuition.
Qed.

Lemma In_keys_of (k : K) (l : list R) :
  In k (keys_of cmp key l) <-> exists r, In r l /\ key r = Some k.
Proof.
  induction l as [|r l IH]; simpl.
  - split; [tauto|]. now intros (r & [] & _).
  - destruct (key r) as [k'|] eqn:E.
    + rewrite In_insert_key, IH. split.
      * intros [-> | (r' & Hr' & Hk)]; [exists r; auto|exists r'; auto].
      * intros (r' & [<- | Hr'] & Hk); [left; congruence|right; eauto].
    + rewrite IH. split.
      * intros (r' & Hr' & Hk). eauto.
      * intros (r' & [<- | Hr'] & Hk); [congruence|eauto].
Qed.

Lemma insert_key_sorted (x : K) (l : list K) :
  StronglySorted (lt_key cmp) l -> StronglySorted (lt_key cmp) (insert_key cmp x l).
Proof.
  induction 1 as [|y l Hl IH Hy]; simpl.
  - constructor; constructor.
  - destruct (cmp x y) eqn:E.
    + now constructor.
    + constructor; [now constructor|].
      constructor; [exact E|].
      eapply Forall_impl; [|exact Hy]. intros z Hz. now apply cmp_trans with y.
    + constructor; [exact IH|].
      apply Forall_forall. intros z Hz. apply In_insert_key in Hz.
      destruct Hz as [-> | Hz].
      * unfold lt_key. rewrite cmp_antisym, E. reflexivity.
      * rewrite Forall_forall in Hy. now apply Hy.
Qed.

Lemma keys_of_sorted (l : list R) : StronglySorted (lt_key cmp) (keys_of cmp key l).
Proof.
  induction l as [|r l IH]; simpl; [constructor|].
  destruct (key r); [now apply insert_key_sorted|exact IH].
Qed.

Lemma sorted_keys_NoDup (ks : list K) : StronglySorted (lt_key cmp) ks -> NoDup ks.
Proof.
  induction 1 as [|y l Hl IH Hy]; constructor; [|exact IH].
  intros Hin. rewrite Forall_forall in Hy. specialize (Hy y Hin).
  unfold lt_key in Hy. rewrite cmp_refl in Hy. discriminate.
Qed.

Lemma keys_of_NoDup (l : list R) : NoDup (keys_of cmp key l).
Proof. apply sorted_keys_NoDup, keys_of_sorted. Qed.

Lemma insert_key_not_nil (x : K) (l : list K) : insert_key cmp x l <> [].
Proof.
  destruct l as [|y l]; simpl; [discriminate|]. destruct (cmp x y); discriminate.
Qed.

Lemma keys_of_nil (l : list R) :
  keys_of cmp key l = [] <-> Forall (fun r => key r = None) l.
Proof.
  induction l as [|r l IH]; simpl.
  - split; constructor.
  - destruct (key r) eqn:E.
    + split; [intros H; now apply insert_key_not_nil in H|].
      intros H. inversion H; congruence.
    + rewrite IH. split; [now constructor|]. intros H. now inversion H.
Qed.

(** The key set depends on the keyed rows only. *)
Lemma keys_of_filter (p : R -> bool) (l : list R) :
  (forall r, In r l -> p r = false -> key r = None) ->
  keys_of cmp key (filter p l) = keys_of cmp key l.
Proof.
  induction l as [|r l IH]; simpl; intros H; [reflexivity|].
  destruct (p r) eqn:E; simpl.
  - rewrite IH by auto. reflexivity.
  - rewrite (H r) by auto. apply IH. auto.
Qed.

Section Regroup.
Context {R' : Type} (key' : R' -> option K) (G : K -> list R').
Hypothesis G_key : forall k, Forall (fun r => key' r = Some k) (G k).

Lemma filter_group_other (s k : K) :
  k <> s -> filter (has_key cmp key' s) (G k) = [].
Proof.
  intros Hne. specialize (G_key k). induction (G k) as [|r l IH]; simpl; [reflexivity|].
  inversion G_key as [|? ? Hr Hl]; subst.
  destruct (has_key cmp key' s r) eqn:E.
  - apply has_key_true in E. congruence.
  - now apply IH.
Qed.

Lemma filter_group_same (s : K) : filter (has_key cmp key' s) (G s) = G s.
Proof.
  specialize (G_key s). induction (G s) as [|r l IH]; simpl; [reflexivity|].
  inversion G_key as [|? ? Hr Hl]; subst.
  apply has_key_true in Hr. rewrite Hr. f_equal. now apply IH.
Qed.

(** Filtering the concatenated groups by a key gives back that key's group. *)
Lemma filter_concat_groups (s : K) (ks : list K) :
  NoDup ks ->
  filter (has_key cmp key' s) (concat (map G ks))
  = if existsb (fun k => match cmp k s with Eq => true | _ => false end) ks
    then G s else [].
Proof.
  induction 1 as [|k ks Hk Hnd IH]; simpl; [reflexivity|].
  rewrite filter_app, IH.
  destruct (cmp k s) eqn:E; simpl.
  - apply cmp_eq in E. subst k. rewrite filter_group_same.
    replace (existsb _ ks) with false; [apply app_nil_r|].
    symmetry. apply not_true_is_false. intros Hex.
    apply existsb_exists in Hex. destruct Hex as (k' & Hin & Hc).
    destruct (cmp k' s) eqn:E'; try discriminate.
    apply cmp_eq in E'. congruence.
  - rewrite filter_group_other; [reflexivity|].
    intros ->. rewrite cmp_refl in E. discriminate.
  - rewrite filter_group_other; [reflexivity|].
    intros ->. rewrite cmp_refl in E. discriminate.
Qed.
End Regroup.

Lemma existsb_key (s : K) (ks : list K) :
  existsb (fun k => match cmp k s with Eq => true | _ => false end) ks = true <-> In s ks.
Proof.
  rewrite existsb_exists. split.
  - intros (k & Hin & Hc). destruct (cmp k s) eqn:E; try discriminate.
    apply cmp_eq in E. congruence.
  - intros Hin. exists s. now rewrite cmp_refl.
Qed.

Lemma filter_has_key_Forall (k : K) (l : list R) :
  Forall (fun r => key r = Some k) (filter (has_key cmp key k) l).
Proof.
  apply Forall_forall. intros r Hr. apply filter_In in Hr.
  now apply has_key_true.
Qed.

Lemma filter_has_key_absent (s : K) (l : list R) :
  ~ In s (keys_of cmp key l) -> filter (has_key cmp key s) l = [].
Proof.
  intros Hs. destruct (filter (has_key cmp key s) l) as [|r l'] eqn:E; [reflexivity|].
  exfalso. apply Hs. apply In_keys_of. exists r.
  assert (Hr : In r (filter (has_key cmp key s) l)) by (rewrite E; now left).
  apply filter_In in Hr. split; [tauto|]. now apply has_key_true.
Qed.

(** The rows of key [s] in the concatenation of the transformed groups
    are the transformed group of [s]. *)
Lemma filter_concat_groupby {R' : Type} (key' : R' -> option K)
      (F : list R -> list R') (l : list R) (s : K) :
  (forall g k, Forall (fun r => key r = Some k) g ->
               Forall (fun r => key' r = Some k) (F g)) ->
  F [] = [] ->
  filter (has_key cmp key' s) (concat (map (fun g => F (snd g)) (groupby cmp key l)))
  = F (filter (has_key cmp key s) l).
Proof.
  intros HF Hnil. unfold groupby. rewrite map_map. simpl.
  rewrite (filter_concat_groups key' (fun k => F (filter (has_key cmp key k) l))).
  - destruct (existsb _ _) eqn:E; [reflexivity|].
    rewrite filter_has_key_absent; [now rewrite Hnil|].
    intros Hin. apply existsb_key in Hin. congruence.
  - intros k. apply HF, filter_has_key_Forall.
  - apply keys_of_NoDup.
Qed.
End GroupByFacts.

(** The two key orders: stream ids and channel names. *)

Lemma Zcompare_eq (a b : Z) : (a ?= b) = Eq <-> a = b.
Proof. apply Z.compare_eq_iff. Qed.

Lemma Zcompare_antisym (a b : Z) : (a ?= b) = CompOpp (b ?= a).
Proof. apply Z.compare_antisym. Qed.

Lemma Zcompare_trans (a b c : Z) : (a ?= b) = Lt -> (b ?= c) = Lt -> (a ?= c) = Lt.
Proof. rewrite !Z.compare_lt_iff. lia. Qed.

Lemma string_compare_eq (a b : string) : String.compare a b = Eq <-> a = b.
Proof. apply OrderedTypeEx.String_as_OT.cmp_eq. Qed.

Lemma string_compare_trans (a b c : string) :
  String.compare a b = Lt -> String.compare b c = Lt -> String.compare a c = Lt.
Proof.
  intros H1 H2.
  apply OrderedTypeEx.String_as_OT.cmp_lt.
  apply OrderedTypeEx.String_as_OT.lt_trans with b;
    now apply OrderedTypeEx.String_as_OT.cmp_lt.
Qed.

(** ** Running sums *)

Lemma cumsum_from_length {V : Type} (add : V -> V -> V) (acc : V) (l : list V) :
  length (cumsum_from add acc l) = length l.
Proof. revert acc. induction l; simpl; intros; [reflexivity|]. now rewrite IHl. Qed.

Lemma cumsum_length {V : Type} (add : V -> V -> V) (l : list V) :
  length (cumsum add l) = length l.
Proof. destruct l; simpl; [reflexivity|]. now rewrite cumsum_from_length. Qed.

Lemma cumsum_from_firstn {V : Type} (add : V -> V -> V) (acc : V) (k : nat) (l : list V) :
  firstn k (cumsum_from add acc l) = cumsum_from add acc (firstn k l).
Proof.
  revert acc k. induction l as [|x l IH]; intros acc [|k]; simpl; try reflexivity.
  now rewrite IH.
Qed.

Lemma cumsum_firstn {V : Type} (add : V -> V -> V) (k : nat) (l : list V) :
  firstn k (cumsum add l) = cumsum add (firstn k l).
Proof.
  destruct l as [|x l]; destruct k; simpl; try reflexivity.
  now rewrite cumsum_from_firstn.
Qed.

Lemma Zcumsum_from_zero (l : list Z) : cumsum Z.add l = cumsum_from Z.add 0 l.
Proof. destruct l; reflexivity. Qed.

Lemma Zcumsum_from_last (l : list Z) (acc d : Z) :
  last (cumsum_from Z.add acc l) d
  = match l with [] => d | _ :: _ => acc + Zsum l end.
Proof.
  revert acc. induction l as [|x l IH]; intros acc; [reflexivity|].
  destruct l as [|y l]; [simpl; lia|].
  change (last (cumsum_from Z.add acc (x :: y :: l)) d)
    with (last (cumsum_from Z.add (acc + x) (y :: l)) d).
  rewrite IH. simpl. lia.
Qed.

(** The last running sum is the sum of the column. *)
Lemma Zcumsum_last (l : list Z) : last (cumsum Z.add l) 0 = Zsum l.
Proof. rewrite Zcumsum_from_zero, Zcumsum_from_last. now destruct l. Qed.

Lemma last_nth {A : Type} (l : list A) (d : A) : last l d = nth (length l - 1) l d.
Proof.
  induction l as [|x l IH]; [reflexivity|].
  destruct l as [|y l]; [reflexivity|].
  change (last (x :: y :: l) d) with (last (y :: l) d). rewrite IH.
  simpl. now rewrite Nat.sub_0_r.
Qed.

(** The running sum at row [k] is the sum of the first [k + 1] values. *)
Lemma Zcumsum_nth (l : list Z) (k : nat) :
  (k < length l)%nat -> nth k (cumsum Z.add l) 0 = Zsum (firstn (S k) l).
Proof.
  intros Hk. rewrite <- Zcumsum_last, <- cumsum_firstn, last_nth.
  rewrite length_firstn, cumsum_length.
  replace (Nat.min (S k) (length l) - 1)%nat with k by lia.
  rewrite nth_firstn. replace (k <? S k)%nat with true; [reflexivity|].
  symmetry. apply Nat.ltb_lt. lia.
Qed.

(** ** Frames built column by column *)

Lemma map_combine_fst {A B C : Type} (f : A -> C) (l : list A) (l' : list B) :
  length l = length l' -> map (fun p => f (fst p)) (combine l l') = map f l.
Proof.
  revert l'. induction l as [|x l IH]; intros [|y l'] H; simpl in *; try discriminate;
    [reflexivity|].
  f_equal. apply IH. lia.
Qed.

Lemma map_combine_snd {A B C : Type} (f : B -> C) (l : list A) (l' : list B) :
  length l = length l' -> map (fun p => f (snd p)) (combine l l') = map f l'.
Proof.
  revert l'. induction l as [|x l IH]; intros [|y l'] H; simpl in *; try discriminate;
    [reflexivity|].
  f_equal. apply IH. lia.
Qed.

Lemma filter_map_comm {A B : Type} (p : B -> bool) (f : A -> B) (l : list A) :
  filter p (map f l) = map f (filter (fun x => p (f x)) l).
Proof.
  induction l as [|x l IH]; simpl; [reflexivity|].
  rewrite IH. now destruct (p (f x)).
Qed.

Lemma StronglySorted_map {A B : Type} (f : B -> Z) (g : A -> B) (l : list A) :
  StronglySorted (le_by f) (map g l) <-> StronglySorted (le_by (fun x => f (g x))) l.
Proof.
  induction l as [|x l IH]; simpl; [split; constructor|].
  split; intros H; inversion H as [|? ? Hl Hx]; subst; constructor;
    try (now apply IH).
  - rewrite Forall_map in Hx. exact Hx.
  - rewrite Forall_map. exact Hx.
Qed.

(** ** The queue length frame *)

Lemma with_queue_length_delta (l : list DeltaRow) : map s_delta (with_queue_length l) = l.
Proof.
  unfold with_queue_length. rewrite map_map. simpl.
  rewrite (map_combine_fst (fun d => d)), map_id; [reflexivity|].
  now rewrite cumsum_length, length_map.
Qed.

Lemma with_queue_length_cumsum (l : list DeltaRow) :
  map s_queue_length (with_queue_length l) = cumsum Z.add (map d_queue l).
Proof.
  unfold with_queue_length. rewrite map_map. simpl.
  rewrite (map_combine_snd (fun z => z)), map_id; [reflexivity|].
  now rewrite cumsum_length, length_map.
Qed.

Lemma with_queue_length_length (l : list DeltaRow) :
  length (with_queue_length l) = length l.
Proof. rewrite <- (with_queue_length_delta l) at 2. now rewrite length_map. Qed.

(** The frame the builder returns, without the [None] case. *)
Lemma queue_length_result (t : Trace) (rank : Z) (out : list QueueLengthRow) :
  _get_queue_length_time_series_for_rank t rank = Some out ->
  out = map project_queue_length (concat (result_df_list t (get_trace t rank)))
  /\ result_df_list t (get_trace t rank) <> [].
Proof.
  unfold _get_queue_length_time_series_for_rank.
  destruct (result_df_list t (get_trace t rank)) eqn:E; [discriminate|].
  intros [= <-]. split; [reflexivity|discriminate].
Qed.

(** The rows of stream [s] in the concatenated groups are the group of [s]:
    the rows of that stream in [merged_df], with their running sums. *)
Lemma stream_rows_of_result (t : Trace) (trace_df : list Event) (s : Z) :
  filter (has_key Z.compare (fun r => d_stream (s_delta r)) s)
         (concat (result_df_list t trace_df))
  = with_queue_length (filter (has_key Z.compare d_stream s) (merged_df t trace_df)).
Proof.
  unfold result_df_list.
  apply (filter_concat_groupby Z.compare d_stream Zcompare_eq Zcompare_antisym
           Zcompare_trans (fun r => d_stream (s_delta r)) with_queue_length).
  - intros g k Hg. rewrite <- (with_queue_length_delta g) in Hg.
    now apply Forall_map in Hg.
  - reflexivity.
Qed.

Lemma rows_of_stream_result (t : Trace) (rank : Z) (out : list QueueLengthRow) (s : Z) :
  _get_queue_length_time_series_for_rank t rank = Some out ->
  rows_of_stream s out
  = map project_queue_length
        (with_queue_length
           (filter (has_key Z.compare d_stream s) (merged_df t (get_trace t rank)))).
Proof.
  intros H. apply queue_length_result in H. destruct H as [-> _].
  unfold rows_of_stream. rewrite filter_map_comm.
  f_equal. apply stream_rows_of_result.
Qed.

(** ** The memory bandwidth frame *)

Lemma cumsum_skipna_length (l : list float) : length (cumsum_skipna l) = length l.
Proof.
  unfold cumsum_skipna.
  rewrite length_map, length_combine, cumsum_length, length_map. apply Nat.min_id.
Qed.

Lemma with_cumsum_bw_columns (l : list MemBwRow) :
  map b_ts (with_cumsum_bw l) = map b_ts l
  /\ map b_pid (with_cumsum_bw l) = map b_pid l
  /\ map b_name (with_cumsum_bw l) = map b_name l
  /\ map b_memory_bw_gbps (with_cumsum_bw l) = cumsum_skipna (map b_memory_bw_gbps l).
Proof.
  assert (Hlen : length l = length (cumsum_skipna (map b_memory_bw_gbps l)))
    by now rewrite cumsum_skipna_length, length_map.
  unfold with_cumsum_bw. rewrite !map_map. simpl. repeat split.
  - now apply (map_combine_fst b_ts).
  - now apply (map_combine_fst b_pid).
  - now apply (map_combine_fst b_name).
  - rewrite (map_combine_snd (fun q => q)), map_id; [reflexivity|exact Hlen].
Qed.

Lemma with_cumsum_bw_length (l : list MemBwRow) : length (with_cumsum_bw l) = length l.
Proof.
  destruct (with_cumsum_bw_columns l) as [H _].
  rewrite <- (length_map b_ts), H. apply length_map.
Qed.

Section MemoryBandwidthFacts.
Variable get_kernel_type : string -> KernelType.
Variable get_memory_kernel_type : string -> string.

Local Abbreviation series_for_rank :=
  (_get_memory_bw_time_series_for_rank get_kernel_type get_memory_kernel_type).
Local Abbreviation time_series := (membw_time_series get_kernel_type get_memory_kernel_type).
Local Abbreviation frames := (membw_result_df_list get_kernel_type get_memory_kernel_type).

Lemma memory_bw_result (t : Trace) (rank : Z) (out : list MemBwRow) :
  series_for_rank t rank = Some out ->
  out = concat (frames t (get_trace t rank)) /\ frames t (get_trace t rank) <> [].
Proof.
  unfold _get_memory_bw_time_series_for_rank.
  destruct (frames t (get_trace t rank)) eqn:E; [discriminate|].
  intros [= <-]. split; [reflexivity|discriminate].
Qed.

(** The rows of channel [nm] in the returned frame are the rows of that
    channel in [membw_time_series], with their running sums. *)
Lemma rows_of_name_result (t : Trace) (rank : Z) (out : list MemBwRow) (nm : string) :
  series_for_rank t rank = Some out ->
  rows_of_name nm out
  = with_cumsum_bw
      (filter (has_key String.compare by_name nm) (time_series t (get_trace t rank))).
Proof.
  intros H. apply memory_bw_result in H. destruct H as [-> _].
  unfold rows_of_name, membw_result_df_list.
  apply (filter_concat_groupby String.compare by_name string_compare_eq
           String.compare_antisym string_compare_trans by_name with_cumsum_bw).
  - intros g k Hg. destruct (with_cumsum_bw_columns g) as (_ & _ & Hn & _).
    unfold by_name in *.
    apply (Forall_map b_name (fun n => Some n = Some k)).
    rewrite Hn. now apply Forall_map.
  - reflexivity.
Qed.
End MemoryBandwidthFacts.

(** C9: in the frame either builder returns, the rows of any one group (a
    stream for queue length, a channel name for bandwidth) are in
    non-decreasing timestamp order. *)
Theorem time_series_sorted_per_group :
  (forall (t : Trace) (rank : Z) (out : list QueueLengthRow) (s : Z),
      _get_queue_length_time_series_for_rank t rank = Some out ->
      StronglySorted (le_by q_ts) (rows_of_stream s out))
  /\ (forall (get_kernel_type : string -> KernelType)
             (get_memory_kernel_type : string -> string)
             (t : Trace) (rank : Z) (out : list MemBwRow) (nm : string),
         _get_memory_bw_time_series_for_rank get_kernel_type get_memory_kernel_type t rank
         = Some out ->
         StronglySorted (le_by b_ts) (rows_of_name nm out)).
Proof.
  split.
  - intros t rank out s H. rewrite (rows_of_stream_result t rank out s H).
    apply StronglySorted_map. apply (StronglySorted_map d_ts s_delta).
    rewrite with_queue_length_delta.
    apply StronglySorted_filter, sort_values_sorted.
  - intros gkt gmkt t rank out nm H.
    rewrite (rows_of_name_result gkt gmkt t rank out nm H).
    apply (StronglySorted_map (fun z => z) b_ts).
    destruct (with_cumsum_bw_columns
                (filter (has_key String.compare by_name nm)
                        (membw_time_series gkt gmkt t (get_trace t rank)))) as [-> _].
    apply (StronglySorted_map (fun z => z) b_ts).
    apply StronglySorted_filter, sort_values_sorted.
Qed.

Lemma time_series_sorted_per_group_witness :
  StronglySorted (le_by q_ts)
    (rows_of_stream 0 [mkQueueLengthRow 0 10 (Some 0) (Some 7) (Some 0) 1;
                       mkQueueLengthRow 1 15 (Some 0) (Some 7) (Some 0) 0;
                       mkQueueLengthRow 2 20 (Some 0) (Some 7) (Some 0) 1;
                       mkQueueLengthRow 3 25 (Some 0) (Some 7) (Some 0) 0])
  /\ StronglySorted (le_by b_ts)
       (rows_of_name "Memcpy HtoD"
          [mkMemBwRow 0 0 "Memcpy HtoD" 4; mkMemBwRow 5 0 "Memcpy HtoD" 10;
           mkMemBwRow 10 0 "Memcpy HtoD" 6; mkMemBwRow 15 0 "Memcpy HtoD" 0]).
Proof.
  split.
  - apply (proj1 time_series_sorted_per_group scenario_A 0). reflexivity.
  - apply (proj2 time_series_sorted_per_group classify channel scenario_C 0). reflexivity.
Defined.

(** ** Queue length: prefix sums *)

Lemma Zsum_perm (l l' : list Z) : Permutation l l' -> Zsum l = Zsum l'.
Proof. induction 1; simpl; lia. Qed.

Lemma merged_df_stream_perm (t : Trace) (trace_df : list Event) (s : Z) :
  Permutation (filter (has_key Z.compare d_stream s) (merged_df t trace_df))
              (filter (has_key Z.compare d_stream s) (concat_df t trace_df)).
Proof. unfold merged_df. rewrite filter_sort_values. apply sort_values_perm. Qed.

Lemma join_one_queue (gpus : list Event) (r : Event) :
  Forall (fun d => d_queue d = 1) (join_one gpus r).
Proof.
  unfold join_one. destruct (filter (correlated r) gpus) as [|g gs].
  - now repeat constructor.
  - apply Forall_map. apply Forall_forall. reflexivity.
Qed.

(** Every delta is [+1] or [-1]. *)
Lemma concat_df_queue (t : Trace) (trace_df : list Event) :
  Forall (fun d => d_queue d = 1 \/ d_queue d = -1) (concat_df t trace_df).
Proof.
  unfold concat_df, join_gpu. apply Forall_app. split.
  - apply Forall_flat_map. apply Forall_forall. intros r _.
    eapply Forall_impl; [|apply join_one_queue]. simpl. tauto.
  - apply Forall_map. apply Forall_forall. intros g _. now right.
Qed.

(** The last queue length of a stream is the sum of the stream's deltas. *)
Lemma last_queue_length (t : Trace) (rank : Z) (out : list QueueLengthRow) (s : Z) :
  _get_queue_length_time_series_for_rank t rank = Some out ->
  last (map q_queue_length (rows_of_stream s out)) 0
  = Zsum (map d_queue (filter (has_key Z.compare d_stream s)
                              (concat_df t (get_trace t rank)))).
Proof.
  intros H. rewrite (rows_of_stream_result t rank out s H), map_map. simpl.
  change (map (fun x => s_queue_length x)) with (map s_queue_length).
  rewrite with_queue_length_cumsum, Zcumsum_last.
  apply Zsum_perm, Permutation_map, merged_df_stream_perm.
Qed.

(** C1: in the frame the queue length builder returns, the rows of a stream
    are that stream's rows of [merged_df], which is in ascending timestamp
    order; the queue length of the row at position [k] is the sum of the
    first [k + 1] deltas, each of them [+1] or [-1]; the last queue length
    is the sum of all the deltas of the stream; and Scenario A gives
    (10,1), (15,0), (20,1), (25,0) on stream 0. *)
Theorem queue_length_is_prefix_sum :
  (forall (t : Trace) (rank : Z) (out : list QueueLengthRow) (s : Z),
      _get_queue_length_time_series_for_rank t rank = Some out ->
      let group := rows_of_stream s out in
      let deltas := filter (has_key Z.compare d_stream s) (merged_df t (get_trace t rank)) in
      map q_ts group = map d_ts deltas
      /\ StronglySorted (le_by d_ts) deltas
      /\ Forall (fun d => d_queue d = 1 \/ d_queue d = -1) deltas
      /\ (forall k : nat,
             (k < length group)%nat ->
             nth k (map q_queue_length group) 0 = Zsum (firstn (S k) (map d_queue deltas)))
      /\ last (map q_queue_length group) 0
         = Zsum (map d_queue (filter (has_key Z.compare d_stream s)
                                     (concat_df t (get_trace t rank)))))
  /\ option_map (fun out => map (fun r => (q_ts r, q_queue_length r)) (rows_of_stream 0 out))
                (_get_queue_length_time_series_for_rank scenario_A 0)
     = Some [(10, 1); (15, 0); (20, 1); (25, 0)].
Proof.
  split; [|reflexivity].
  intros t rank out s H group deltas.
  assert (Hg : group = map project_queue_length (with_queue_length deltas))
    by (apply rows_of_stream_result; exact H).
  assert (Hq : map q_queue_length group = cumsum Z.add (map d_queue deltas)).
  { rewrite Hg, map_map. simpl. apply with_queue_length_cumsum. }
  repeat split.
  - rewrite Hg, map_map. simpl.
    rewrite <- (with_queue_length_delta deltas) at 2. now rewrite map_map.
  - apply StronglySorted_filter, sort_values_sorted.
  - apply Forall_forall. intros d Hd. apply filter_In in Hd. destruct Hd as [Hd _].
    pose proof (concat_df_queue t (get_trace t rank)) as Hall.
    rewrite Forall_forall in Hall. apply Hall.
    eapply Permutation_in; [apply sort_values_perm|exact Hd].
  - intros k Hk. rewrite Hq. apply Zcumsum_nth.
    rewrite length_map. rewrite Hg, length_map, with_queue_length_length in Hk. exact Hk.
  - now apply last_queue_length.
Qed.

Lemma queue_length_is_prefix_sum_witness :
  let out := [mkQueueLengthRow 0 10 (Some 0) (Some 7) (Some 0) 1;
              mkQueueLengthRow 1 15 (Some 0) (Some 7) (Some 0) 0;
              mkQueueLengthRow 2 20 (Some 0) (Some 7) (Some 0) 1;
              mkQueueLengthRow 3 25 (Some 0) (Some 7) (Some 0) 0] in
  _get_queue_length_time_series_for_rank scenario_A 0 = Some out
  /\ last (map q_queue_length (rows_of_stream 0 out)) 0
     = Zsum (map d_queue (filter (has_key Z.compare d_stream 0)
                                 (concat_df scenario_A (get_trace scenario_A 0)))).
Proof.
  split; [reflexivity|].
  apply (proj1 queue_length_is_prefix_sum scenario_A 0 _ 0 eq_refl).
Defined.

(** ** Grouping keeps every keyed row once *)

Lemma filter_disjoint_perm {A : Type} (p q : A -> bool) (l : list A) :
  (forall x, In x l -> p x = true -> q x = true -> False) ->
  Permutation (filter p l ++ filter q l) (filter (fun x => p x || q x) l).
Proof.
  induction l as [|x l IH]; simpl; intros H; [reflexivity|].
  assert (IH' := IH (fun y Hy => H y (or_intror Hy))).
  destruct (p x) eqn:Px, (q x) eqn:Qx; simpl.
  - exfalso. apply (H x); auto.
  - now apply perm_skip.
  - rewrite <- Permutation_middle. now apply perm_skip.
  - exact IH'.
Qed.

Lemma flat_map_filter {A B : Type} (p : A -> bool) (f : A -> list B) (l : list A) :
  flat_map f (filter p l) = flat_map (fun x => if p x then f x else []) l.
Proof.
  induction l as [|x l IH]; simpl; [reflexivity|].
  destruct (p x); simpl; now rewrite IH.
Qed.

Lemma filter_flat_map {A B : Type} (p : B -> bool) (f : A -> list B) (l : list A) :
  filter p (flat_map f l) = flat_map (fun x => filter p (f x)) l.
Proof.
  induction l as [|x l IH]; simpl; [reflexivity|].
  now rewrite filter_app, IH.
Qed.

Lemma filter_all {A : Type} (p : A -> bool) (l : list A) :
  Forall (fun x => p x = true) l -> filter p l = l.
Proof. induction 1 as [|x l Hx Hl IH]; simpl; [reflexivity|]. now rewrite Hx, IH. Qed.

Section GroupByPerm.
Context {K R : Type} (cmp : K -> K -> comparison) (key : R -> option K).
Hypothesis cmp_eq : forall a b, cmp a b = Eq <-> a = b.
Hypothesis cmp_antisym : forall a b, cmp a b = CompOpp (cmp b a).
Hypothesis cmp_trans : forall a b c, cmp a b = Lt -> cmp b c = Lt -> cmp a c = Lt.

Lemma groups_perm (l : list R) (ks : list K) :
  NoDup ks ->
  Permutation (concat (map (fun k => filter (has_key cmp key k) l) ks))
              (filter (fun r => existsb (fun k => has_key cmp key k r) ks) l).
Proof.
  induction 1 as [|k ks Hk Hnd IH]; simpl.
  - induction l as [|r l IHl]; simpl; [reflexivity|exact IHl].
  - rewrite IH. apply filter_disjoint_perm. intros r _ H1 H2.
    apply (has_key_true cmp cmp_eq) in H1.
    apply existsb_exists in H2. destruct H2 as (k' & Hin & H2).
    apply (has_key_true cmp cmp_eq) in H2. congruence.
Qed.

(** The concatenated groups are the keyed rows of the frame, rearranged. *)
Lemma groupby_perm (l : list R) :
  Permutation (concat (map snd (groupby cmp key l)))
              (filter (fun r => match key r with Some _ => true | None => false end) l).
Proof.
  unfold groupby. rewrite map_map. simpl.
  rewrite groups_perm by (now apply keys_of_NoDup).
  erewrite filter_ext_in; [reflexivity|].
  intros r Hr. simpl. destruct (key r) as [k|] eqn:E.
  - apply existsb_exists. exists k. split.
    + apply (In_keys_of cmp key cmp_eq). eauto.
    + now apply (has_key_true cmp cmp_eq).
  - apply not_true_is_false. intros H. apply existsb_exists in H.
    destruct H as (k & _ & H). apply (has_key_true cmp cmp_eq) in H. congruence.
Qed.

(** Rows without a key play no part in the grouping. *)
Lemma groupby_dropna (l : list R) :
  groupby cmp key l
  = groupby cmp key (filter (fun r => match key r with Some _ => true | None => false end) l).
Proof.
  unfold groupby. rewrite keys_of_filter.
  - apply map_ext. intros k. f_equal.
    induction l as [|r l IH]; simpl; [reflexivity|].
    destruct (key r) as [k'|] eqn:E; simpl; rewrite IH; [reflexivity|].
    unfold has_key. now rewrite E.
  - intros r _. now destruct (key r).
Qed.
End GroupByPerm.

(** ** Queue length: what each event contributes *)

Lemma join_one_matched (gpus : list Event) (r : Event) :
  filter has_stream (join_one gpus r) = map (joined_row r) (filter (correlated r) gpus).
Proof.
  unfold join_one. destruct (filter (correlated r) gpus) as [|g gs]; [reflexivity|].
  apply filter_all. apply Forall_map. apply Forall_forall. reflexivity.
Qed.

(** The rows of [concat_df] that have a stream, event by event. *)
Lemma concat_df_has_stream (t : Trace) (trace_df : list Event) :
  filter has_stream (concat_df t trace_df)
  = flat_map (enqueue_deltas t trace_df) trace_df ++ flat_map execute_deltas trace_df.
Proof.
  unfold concat_df, join_gpu, runtime_calls. rewrite filter_app, filter_flat_map. f_equal.
  - rewrite flat_map_filter. apply flat_map_ext. intros e.
    unfold enqueue_deltas. destruct (is_runtime_call t e); [|reflexivity].
    apply join_one_matched.
  - rewrite filter_all by (apply Forall_map, Forall_forall; reflexivity).
    unfold gpu_kernels. induction trace_df as [|e l IH]; simpl; [reflexivity|].
    unfold execute_deltas at 1. destruct (is_gpu_kernel e); simpl; now rewrite IH.
Qed.

Lemma result_df_list_deltas (t : Trace) (trace_df : list Event) :
  map s_delta (concat (result_df_list t trace_df))
  = concat (map snd (groupby Z.compare d_stream (merged_df t trace_df))).
Proof.
  unfold result_df_list. rewrite concat_map, map_map. f_equal.
  apply map_ext. intros g. apply with_queue_length_delta.
Qed.

(** The deltas of the grouped frames are the matched [+1] rows and the [-1]
    rows, rearranged. *)
Lemma result_df_list_perm (t : Trace) (trace_df : list Event) :
  Permutation (map s_delta (concat (result_df_list t trace_df)))
              (flat_map (enqueue_deltas t trace_df) trace_df
               ++ flat_map execute_deltas trace_df).
Proof.
  rewrite result_df_list_deltas.
  rewrite (groupby_perm Z.compare d_stream Zcompare_eq Zcompare_antisym Zcompare_trans).
  rewrite <- concat_df_has_stream. unfold merged_df.
  change (fun r : DeltaRow => match d_stream r with Some _ => true | None => false end)
    with has_stream.
  rewrite filter_sort_values. apply sort_values_perm.
Qed.

(** C2, as stated, fails: a selected launch whose correlation id no GPU
    event carries adds no [+1] row to any stream, and one whose correlation
    id two GPU events carry adds two. *)
Lemma enqueue_without_single_match :
  (In lone_launch (get_trace lone_launch_trace 0)
   /\ is_runtime_call lone_launch_trace lone_launch = true
   /\ length (enqueued_by lone_launch
                (concat (result_df_list lone_launch_trace (get_trace lone_launch_trace 0))))
      = 0%nat)
  /\ (In twin_launch (get_trace twin_trace 0)
      /\ is_runtime_call twin_trace twin_launch = true
      /\ length (enqueued_by twin_launch
                   (concat (result_df_list twin_trace (get_trace twin_trace 0))))
         = 2%nat).
Proof. repeat split; try reflexivity; simpl; auto. Qed.

(** C2, amended: the deltas of the grouped frames are, rearranged, one
    [+1] row per selected runtime call and GPU event sharing its
    correlation id, at the call's timestamp and with the stream, pid and
    tid of that GPU event, and one [-1] row per event with a stream other
    than -1, at its own timestamp and with its own stream, pid and tid. *)
Theorem deltas_per_event (t : Trace) (trace_df : list Event) :
  Permutation (map s_delta (concat (result_df_list t trace_df)))
              (flat_map (enqueue_deltas t trace_df) trace_df
               ++ flat_map execute_deltas trace_df)
  /\ (forall e : Event,
         is_runtime_call t e = true ->
         enqueue_deltas t trace_df e
         = map (fun g => mkDeltaRow (index e) (ts e) (Some (pid g)) (Some (tid g))
                                    (Some (stream g)) (correlation e) 1)
               (filter (fun g => correlation g =? correlation e) (gpu_kernels trace_df)))
  /\ (forall e : Event, is_runtime_call t e = false -> enqueue_deltas t trace_df e = [])
  /\ (forall e : Event,
         stream e <> -1 ->
         execute_deltas e
         = [mkDeltaRow (index e) (ts e) (Some (pid e)) (Some (tid e)) (Some (stream e))
                       (correlation e) (-1)])
  /\ (forall e : Event, stream e = -1 -> execute_deltas e = []).
Proof.
  split; [apply result_df_list_perm|]. repeat split.
  - intros e He. unfold enqueue_deltas. now rewrite He.
  - intros e He. unfold enqueue_deltas. now rewrite He.
  - intros e He. unfold execute_deltas, is_gpu_kernel.
    apply Z.eqb_neq in He. now rewrite He.
  - intros e He. unfold execute_deltas, is_gpu_kernel. now rewrite He.
Qed.

Lemma deltas_per_event_witness :
  enqueue_deltas scenario_A scenario_A_events (mkEvent 0 10 2 100 200 (-1) 1 7 1 0)
  = [mkDeltaRow 0 10 (Some 0) (Some 7) (Some 0) 7 1]
  /\ execute_deltas (mkEvent 1 15 3 0 7 0 10 7 0 0)
     = [mkDeltaRow 1 15 (Some 0) (Some 7) (Some 0) 7 (-1)].
Proof.
  destruct (deltas_per_event scenario_A scenario_A_events) as (_ & H1 & _ & H2 & _).
  split.
  - rewrite H1 by reflexivity. reflexivity.
  - rewrite H2 by discriminate. reflexivity.
Defined.

(** ** Frames that differ in the order of their rows *)

Lemma filter_perm {A : Type} (p : A -> bool) (l l' : list A) :
  Permutation l l' -> Permutation (filter p l) (filter p l').
Proof.
  induction 1 as [|x l l' _ IH|x y l|l l' l'' _ IH1 _ IH2]; simpl.
  - reflexivity.
  - destruct (p x); [now apply perm_skip|exact IH].
  - destruct (p x), (p y); try reflexivity. apply perm_swap.
  - now rewrite IH1.
Qed.

(** A frame sorted by a column without repeated values is the only sorted
    arrangement of its rows. *)
Lemma sorted_perm_unique {R : Type} (by_ : R -> Z) (l1 l2 : list R) :
  StronglySorted (le_by by_) l1 -> StronglySorted (le_by by_) l2 ->
  Permutation l1 l2 -> NoDup (map by_ l1) -> l1 = l2.
Proof.
  intros H1. revert l2. induction H1 as [|x l1 Hl1 IH Hx]; intros l2 H2 Hp Hnd.
  - now apply Permutation_nil in Hp.
  - destruct l2 as [|y l2]; [apply Permutation_sym, Permutation_nil in Hp; discriminate|].
    inversion H2 as [|? ? Hl2 Hy]; subst. simpl in Hnd. inversion Hnd as [|? ? Hnx Hnd']; subst.
    assert (Hxy : x = y).
    { assert (Hxin : In x (y :: l2)) by (apply (Permutation_in _ Hp); now left).
      assert (Hyin : In y (x :: l1))
        by (apply (Permutation_in _ (Permutation_sym Hp)); now left).
      destruct Hxin as [-> | Hxin]; [reflexivity|].
      destruct Hyin as [-> | Hyin]; [reflexivity|].
      rewrite Forall_forall in Hx, Hy. pose proof (Hx y Hyin) as Ha.
      pose proof (Hy x Hxin) as Hb. unfold le_by in Ha, Hb.
      exfalso. apply Hnx. replace (by_ x) with (by_ y) by lia. now apply in_map. }
    subst y. f_equal. apply IH; [exact Hl2| |exact Hnd'].
    now apply Permutation_cons_inv in Hp.
Qed.

Section GroupByOrder.
Context {K R : Type} (cmp : K -> K -> comparison) (key : R -> option K) (by_ : R -> Z).
Hypothesis cmp_eq : forall a b, cmp a b = Eq <-> a = b.
Hypothesis cmp_antisym : forall a b, cmp a b = CompOpp (cmp b a).
Hypothesis cmp_trans : forall a b c, cmp a b = Lt -> cmp b c = Lt -> cmp a c = Lt.

Lemma sorted_keys_unique (l1 l2 : list K) :
  StronglySorted (lt_key cmp) l1 -> StronglySorted (lt_key cmp) l2 ->
  (forall k, In k l1 <-> In k l2) -> l1 = l2.
Proof.
  intros H1. revert l2. induction H1 as [|x l1 Hl1 IH Hx]; intros l2 H2 Hin.
  - destruct l2 as [|y l2]; [reflexivity|]. exfalso. apply (Hin y). now left.
  - destruct l2 as [|y l2]; [exfalso; apply (Hin x); now left|].
    inversion H2 as [|? ? Hl2 Hy]; subst.
    rewrite Forall_forall in Hx, Hy.
    assert (Hirr : forall a, cmp a a = Lt -> False).
    { intros a Ha. rewrite (proj2 (cmp_eq a a) eq_refl) in Ha. discriminate. }
    assert (Hxy : x = y).
    { destruct (proj1 (Hin x) (or_introl eq_refl)) as [-> | Hxin]; [reflexivity|].
      destruct (proj2 (Hin y) (or_introl eq_refl)) as [-> | Hyin]; [reflexivity|].
      exfalso. apply (Hirr x). apply cmp_trans with y; [now apply Hx|now apply Hy]. }
    subst y. f_equal. apply IH; [exact Hl2|]. intros k. split; intros Hk.
    + destruct (proj1 (Hin k) (or_intror Hk)) as [<- | Hk']; [|exact Hk'].
      exfalso. apply (Hirr x). now apply Hx.
    + destruct (proj2 (Hin k) (or_intror Hk)) as [<- | Hk']; [|exact Hk'].
      exfalso. apply (Hirr x). now apply Hy.
Qed.

(** Two frames with the same rows in every group have the same keys. *)
Lemma keys_of_groups (M M' : list R) :
  (forall k, Permutation (filter (has_key cmp key k) M) (filter (has_key cmp key k) M')) ->
  keys_of cmp key M = keys_of cmp key M'.
Proof.
  intros Hg.
  assert (Hone : forall A B : list R,
             (forall k, Permutation (filter (has_key cmp key k) A)
                                    (filter (has_key cmp key k) B)) ->
             forall k, In k (keys_of cmp key A) -> In k (keys_of cmp key B)).
  { intros A B HAB k. rewrite !(In_keys_of cmp key cmp_eq). intros (r & Hr & Hkr).
    assert (Hin : In r (filter (has_key cmp key k) A)).
    { apply filter_In. split; [exact Hr|]. now apply (has_key_true cmp cmp_eq). }
    apply (Permutation_in _ (HAB k)) in Hin. apply filter_In in Hin.
    exists r. split; [apply Hin|exact Hkr]. }
  apply sorted_keys_unique; try apply (keys_of_sorted cmp key cmp_eq cmp_antisym cmp_trans).
  intros k. split; apply Hone; [exact Hg|].
  intros k'. apply Permutation_sym, Hg.
Qed.

(** Two sorted frames with the same rows in every group are grouped alike
    when no two rows of a group share a sort value: nothing but the sort
    order enters. *)
Lemma groupby_sorted_unique (M M' : list R) :
  StronglySorted (le_by by_) M -> StronglySorted (le_by by_) M' ->
  (forall k, Permutation (filter (has_key cmp key k) M) (filter (has_key cmp key k) M')) ->
  (forall k, NoDup (map by_ (filter (has_key cmp key k) M))) ->
  groupby cmp key M = groupby cmp key M'.
Proof.
  intros HM HM' Hg Hnd. unfold groupby.
  rewrite <- (keys_of_groups M M' Hg). apply map_ext. intros k. f_equal.
  apply (sorted_perm_unique by_).
  - now apply StronglySorted_filter.
  - now apply StronglySorted_filter.
  - apply Hg.
  - apply Hnd.
Qed.

(** Grouping the sorted frame does not depend on the order of the rows
    before the sort, when no two rows of a group share a sort value. *)
Lemma groupby_sort_perm (X X' : list R) :
  Permutation X X' ->
  (forall k, NoDup (map by_ (filter (has_key cmp key k) X))) ->
  groupby cmp key (sort_values by_ X) = groupby cmp key (sort_values by_ X').
Proof.
  intros Hp Hnd. apply groupby_sorted_unique.
  - apply sort_values_sorted.
  - apply sort_values_sorted.
  - intros k. apply filter_perm. now rewrite !sort_values_perm.
  - intros k.
    apply (Permutation_NoDup
             (Permutation_map by_ (filter_perm _ _ _
                                     (Permutation_sym (sort_values_perm by_ X))))).
    apply Hnd.
Qed.
End GroupByOrder.

(** ** Queue length: a runtime call without a GPU event *)

Lemma is_runtime_call_ext (t t' : Trace) (e : Event) :
  (forall s, get_sym_id_map t' s = get_sym_id_map t s) ->
  is_runtime_call t' e = is_runtime_call t e.
Proof. intros H. unfold is_runtime_call. now rewrite !H. Qed.

Lemma concat_df_ext (t t' : Trace) (trace_df : list Event) :
  (forall s, get_sym_id_map t' s = get_sym_id_map t s) ->
  concat_df t' trace_df = concat_df t trace_df.
Proof.
  intros H. unfold concat_df, runtime_calls. f_equal. f_equal.
  apply filter_ext. intros e. now apply is_runtime_call_ext.
Qed.



Lemma has_key_Z {R : Type} (key : R -> option Z) (s : Z) (r : R) :
  has_key Z.compare key s r = match key r with Some k => k =? s | None => false end.
Proof.
  unfold has_key. destruct (key r) as [k|]; [|reflexivity].
  destruct (Z.compare_spec k s) as [-> | H | H].
  - now rewrite Z.eqb_refl.
  - symmetry. apply Z.eqb_neq. lia.
  - symmetry. apply Z.eqb_neq. lia.
Qed.


Lemma ascending_sort_values : ascending (sort_values d_ts).
Proof. intros l. split; [apply sort_values_sorted|apply sort_values_perm]. Qed.

Lemma ascending_unstable_sort : ascending unstable_sort.
Proof.
  intros l. unfold unstable_sort. destruct (Nat.even (length l)).
  - apply ascending_sort_values.
  - split; [apply sort_values_sorted|].
    rewrite sort_values_perm. apply Permutation_sym, Permutation_rev.
Qed.





(** ** Queue length: negative values *)

Lemma cumsum_from_negative (acc : Z) (l : list Z) :
  acc <= 0 -> Forall (fun x => x <= -1) l ->
  Forall (fun x => x <= -1) (cumsum_from Z.add acc l).
Proof.
  intros Hacc H. revert acc Hacc.
  induction H as [|x l Hx Hl IH]; intros acc Hacc; simpl; constructor; [lia|].
  apply IH. lia.
Qed.

Lemma cumsum_negative (l : list Z) :
  Forall (fun x => x <= -1) l -> Forall (fun x => x <= -1) (cumsum Z.add l).
Proof. rewrite Zcumsum_from_zero. now apply cumsum_from_negative. Qed.

Lemma In_join_one (gpus : list Event) (r : Event) (d : DeltaRow) :
  In d (join_one gpus r) ->
  d = unmatched_row r
  \/ exists g, In g gpus /\ correlation g = correlation r /\ d = joined_row r g.
Proof.
  unfold join_one. destruct (filter (correlated r) gpus) as [|g gs] eqn:E.
  - intros [<- | []]. now left.
  - rewrite <- E. intros Hd. apply in_map_iff in Hd. destruct Hd as (g' & <- & Hg').
    apply filter_In in Hg'. destruct Hg' as [Hin Hc].
    right. exists g'. repeat split; [exact Hin|]. now apply Z.eqb_eq in Hc.
Qed.

(** C10: queue lengths can be negative.  On a stream none of whose GPU
    events shares a correlation id with a selected runtime call, every row
    has a queue length of -1 or less; a trace of one such GPU event gives a
    single row with queue length -1. *)
Theorem kernel_without_launch_goes_negative :
  (forall (t : Trace) (rank : Z) (out : list QueueLengthRow) (s : Z),
      _get_queue_length_time_series_for_rank t rank = Some out ->
      (forall r g : Event,
          In r (runtime_calls t (get_trace t rank)) ->
          In g (gpu_kernels (get_trace t rank)) ->
          stream g = s -> correlation g <> correlation r) ->
      Forall (fun row => q_queue_length row <= -1) (rows_of_stream s out))
  /\ runtime_calls lone_kernel_trace (get_trace lone_kernel_trace 0) = []
  /\ _get_queue_length_time_series_for_rank lone_kernel_trace 0
     = Some [mkQueueLengthRow 0 15 (Some 0) (Some 7) (Some 0) (-1)].
Proof.
  split; [|split; reflexivity].
  intros t rank out s H Hmiss.
  rewrite (rows_of_stream_result t rank out s H).
  apply Forall_map. apply (Forall_map s_queue_length (fun x => x <= -1)).
  rewrite with_queue_length_cumsum. apply cumsum_negative.
  apply Forall_map. apply Forall_forall. intros d Hd.
  apply filter_In in Hd. destruct Hd as [Hd Hs].
  apply (has_key_true Z.compare Zcompare_eq) in Hs.
  apply (Permutation_in _ (sort_values_perm d_ts _)) in Hd.
  unfold concat_df in Hd. apply in_app_or in Hd. destruct Hd as [Hd | Hd].
  - unfold join_gpu in Hd. apply in_flat_map in Hd. destruct Hd as (r & Hr & Hd).
    apply In_join_one in Hd. destruct Hd as [-> | (g & Hg & Hc & ->)].
    + discriminate.
    + exfalso. apply (Hmiss r g Hr Hg); [|exact Hc].
      simpl in Hs. congruence.
  - apply in_map_iff in Hd. destruct Hd as (g & <- & _). simpl. lia.
Qed.

Lemma kernel_without_launch_goes_negative_witness :
  Forall (fun row => q_queue_length row <= -1)
         (rows_of_stream 0 [mkQueueLengthRow 0 15 (Some 0) (Some 7) (Some 0) (-1)]).
Proof.
  apply (proj1 kernel_without_launch_goes_negative lone_kernel_trace 0 _ 0 eq_refl).
  intros r g [].
Defined.

(** ** Per-rank orchestration *)

Section DictFacts.
Context {V : Type} (f : Z -> V).

Lemma In_dict_set (k0 : Z) (d : list (Z * V)) (k : Z) (v : V) :
  from_f f d ->
  (In (k, v) (dict_set k0 (f k0) d) <-> In (k, v) d \/ (k = k0 /\ v = f k0)).
Proof.
  induction d as [|[k' v'] d IH]; simpl; intros Hd.
  - split; [intros [[= <- <-] | []]; auto|]. intros [[] | [-> ->]]. now left.
  - inversion Hd as [|? ? Hk Hd']; subst. simpl in Hk.
    destruct (k' =? k0) eqn:E; simpl.
    + apply Z.eqb_eq in E. subst k' v'. split.
      * intros [[= <- <-] | H]; auto.
      * intros [[H | H] | [-> ->]]; auto.
    + rewrite (IH Hd'). tauto.
Qed.

Lemma dict_set_from_f (k0 : Z) (d : list (Z * V)) :
  from_f f d -> from_f f (dict_set k0 (f k0) d).
Proof.
  intros Hd. apply Forall_forall. intros [k v] Hin.
  apply (In_dict_set k0 d k v Hd) in Hin. destruct Hin as [Hin | [-> ->]].
  - unfold from_f in Hd. rewrite Forall_forall in Hd. exact (Hd _ Hin).
  - reflexivity.
Qed.

Lemma In_fold_dict_set (ranks : list Z) (d : list (Z * V)) (k : Z) (v : V) :
  from_f f d ->
  (In (k, v) (fold_left (fun d rank => dict_set rank (f rank) d) ranks d)
   <-> In (k, v) d \/ (In k ranks /\ v = f k)).
Proof.
  revert d. induction ranks as [|r ranks IH]; simpl; intros d Hd.
  - tauto.
  - rewrite (IH _ (dict_set_from_f r d Hd)), (In_dict_set r d k v Hd).
    split.
    + intros [[H | [-> ->]] | [H ->]]; auto.
    + intros [H | [[<- | H] ->]]; auto.
Qed.

(** The items of the comprehension: each rank of the list, with its value. *)
Lemma In_dict_comprehension (ranks : list Z) (k : Z) (v : V) :
  In (k, v) (dict_comprehension f ranks) <-> In k ranks /\ v = f k.
Proof.
  unfold dict_comprehension. rewrite In_fold_dict_set by constructor.
  simpl. tauto.
Qed.
End DictFacts.

Lemma In_filter_not_None {V : Type} (items : list (Z * option V)) (k : Z) (v : V) :
  In (k, v) (filter_not_None items) <-> In (k, Some v) items.
Proof.
  induction items as [|[k' [v'|]] items IH]; simpl; [tauto| |].
  - rewrite IH. split; intros [[= <- <-] | H]; auto.
  - rewrite IH. split; [auto|]. intros [[=] | H]. exact H.
Qed.

(** The ranks of the returned map: those whose builder returned a frame. *)
Lemma In_time_series {V : Type} (f : Z -> option V) (ranks : list Z) (k : Z) (v : V) :
  In (k, v) (filter_not_None (dict_comprehension f ranks)) <-> In k ranks /\ f k = Some v.
Proof.
  rewrite In_filter_not_None, In_dict_comprehension. split; intros [H1 H2]; auto.
Qed.

Lemma groupby_nil {K R : Type} (cmp : K -> K -> comparison) (key : R -> option K)
      (l : list R) :
  groupby cmp key l = [] <-> Forall (fun r => key r = None) l.
Proof.
  rewrite <- (keys_of_nil cmp key). unfold groupby. split; intros H.
  - now apply map_eq_nil in H.
  - now rewrite H.
Qed.

Lemma groupby_nonempty {K R : Type} (cmp : K -> K -> comparison) (key : R -> option K)
      (cmp_eq : forall a b, cmp a b = Eq <-> a = b) (l : list R) (g : K * list R) :
  In g (groupby cmp key l) -> snd g <> [].
Proof.
  unfold groupby. intros Hg. apply in_map_iff in Hg. destruct Hg as (k & <- & Hk).
  apply (In_keys_of cmp key cmp_eq) in Hk. destruct Hk as (r & Hr & Hkr). simpl.
  intros Hnil.
  assert (Hin : In r (filter (has_key cmp key k) l)).
  { apply filter_In. split; [exact Hr|]. now apply (has_key_true cmp cmp_eq). }
  now rewrite Hnil in Hin.
Qed.

Lemma concat_nonempty {A : Type} (ll : list (list A)) :
  ll <> [] -> Forall (fun l => l <> []) ll -> concat ll <> [].
Proof.
  destruct ll as [|l ll]; [congruence|]. intros _ H. inversion H as [|? ? Hl _]; subst.
  simpl. destruct l; [congruence|discriminate].
Qed.

(** The queue length builder returns [None] exactly when no event of the
    rank ran on a stream. *)
Lemma queue_length_None (t : Trace) (rank : Z) :
  _get_queue_length_time_series_for_rank t rank = None
  <-> gpu_kernels (get_trace t rank) = [].
Proof.
  unfold _get_queue_length_time_series_for_rank.
  set (df := get_trace t rank).
  assert (Hnil : result_df_list t df = [] <-> gpu_kernels df = []).
  { unfold result_df_list. split.
    - intros H. apply map_eq_nil in H. apply groupby_nil in H.
      destruct (gpu_kernels df) as [|g gs] eqn:E; [reflexivity|exfalso].
      rewrite Forall_forall in H. specialize (H (gpu_row g)).
      assert (Hin : In (gpu_row g) (merged_df t df)).
      { apply (Permutation_in _ (Permutation_sym (sort_values_perm d_ts _))).
        unfold concat_df. apply in_or_app. right. rewrite E. now left. }
      specialize (H Hin). discriminate.
    - intros H. replace (groupby Z.compare d_stream (merged_df t df))
        with (@nil (Z * list DeltaRow)); [reflexivity|].
      symmetry. apply groupby_nil. apply Forall_forall. intros d Hd.
      apply (Permutation_in _ (sort_values_perm d_ts _)) in Hd.
      unfold concat_df in Hd. rewrite H, app_nil_r in Hd.
      unfold join_gpu in Hd. apply in_flat_map in Hd. destruct Hd as (r & _ & Hd).
      apply In_join_one in Hd. destruct Hd as [-> | (g & [] & _)]. reflexivity. }
  destruct (result_df_list t df) eqn:E.
  - split; [intros _; now apply Hnil|reflexivity].
  - split; [discriminate|]. intros H. apply Hnil in H. discriminate.
Qed.

Lemma queue_length_not_empty (t : Trace) (rank : Z) (out : list QueueLengthRow) :
  _get_queue_length_time_series_for_rank t rank = Some out -> out <> [].
Proof.
  intros H. apply queue_length_result in H. destruct H as [-> Hne].
  intros Hnil. apply map_eq_nil in Hnil. revert Hnil. apply concat_nonempty; [exact Hne|].
  unfold result_df_list. apply Forall_map. apply Forall_forall. intros g Hg.
  apply (groupby_nonempty Z.compare d_stream Zcompare_eq) in Hg.
  intros Hnil. apply Hg. rewrite <- (with_queue_length_delta (snd g)), Hnil. reflexivity.
Qed.

Section MemoryBandwidthEmpty.
Variable get_kernel_type : string -> KernelType.
Variable get_memory_kernel_type : string -> string.

(** The bandwidth builder returns [None] exactly when the rank has no
    device-side event of the memory kind. *)
Lemma memory_bw_None (t : Trace) (rank : Z) :
  _get_memory_bw_time_series_for_rank get_kernel_type get_memory_kernel_type t rank = None
  <-> memcpy_kernels get_kernel_type get_memory_kernel_type t (get_trace t rank) = [].
Proof.
  unfold _get_memory_bw_time_series_for_rank, membw_result_df_list, membw_time_series.
  set (ks := memcpy_kernels _ _ t (get_trace t rank)).
  assert (Hnil : groupby String.compare by_name
                   (sort_values b_ts (membw_time_series_a ks ++ membw_time_series_b ks)) = []
                 <-> ks = []).
  { rewrite groupby_nil. split.
    - intros H. destruct ks as [|k ks']; [reflexivity|].
      simpl in H. exfalso.
      assert (Hin : In (start_row k)
                       (insert_by b_ts (start_row k)
                          (sort_values b_ts (membw_time_series_a ks'
                                             ++ membw_time_series_b (k :: ks'))))).
      { apply (Permutation_in _ (Permutation_sym (insert_by_perm b_ts _ _))). now left. }
      rewrite Forall_forall in H. specialize (H _ Hin). discriminate.
    - intros ->. constructor. }
  destruct (groupby _ _ _) eqn:E; simpl.
  - split; [intros _; now apply Hnil|reflexivity].
  - split; [discriminate|]. intros H. apply Hnil in H. discriminate.
Qed.

Lemma memory_bw_not_empty (t : Trace) (rank : Z) (out : list MemBwRow) :
  _get_memory_bw_time_series_for_rank get_kernel_type get_memory_kernel_type t rank = Some out ->
  out <> [].
Proof.
  intros H. apply memory_bw_result in H. destruct H as [-> Hne].
  apply concat_nonempty; [exact Hne|].
  unfold membw_result_df_list. apply Forall_map. apply Forall_forall. intros g Hg.
  apply (groupby_nonempty String.compare by_name string_compare_eq) in Hg.
  intros Hnil. apply Hg. apply length_zero_iff_nil.
  rewrite <- with_cumsum_bw_length, Hnil. reflexivity.
Qed.
End MemoryBandwidthEmpty.

(** C7: for both [get_queue_length_time_series] and
    [get_memory_bw_time_series], the returned map holds exactly the requested
    ranks whose builder returned a frame, each with that frame; a rank whose
    builder returned [None] (no device-side event, no device-side memory event)
    is not a key of it, and no frame in it is empty.  Both functions are
    total: asking for such a rank yields a map, not an error. *)
Theorem rank_without_rows_is_absent :
  (forall (t : Trace) (ranks : option (list Z)) (r : Z),
      _get_queue_length_time_series_for_rank t r = None ->
      ~ In r (map fst (get_queue_length_time_series t ranks)))
  /\ (forall (t : Trace) (ranks : option (list Z)) (r : Z) (df : list QueueLengthRow),
         In (r, df) (get_queue_length_time_series t ranks)
         <-> In r (default_ranks ranks)
             /\ _get_queue_length_time_series_for_rank t r = Some df)
  /\ (forall (t : Trace) (ranks : option (list Z)) (r : Z) (df : list QueueLengthRow),
         In (r, df) (get_queue_length_time_series t ranks) -> df <> [])
  /\ (forall (t : Trace) (r : Z),
         _get_queue_length_time_series_for_rank t r = None
         <-> gpu_kernels (get_trace t r) = [])
  /\ (forall (gkt : string -> KernelType) (gmkt : string -> string)
             (t : Trace) (ranks : option (list Z)) (r : Z),
         _get_memory_bw_time_series_for_rank gkt gmkt t r = None ->
         ~ In r (map fst (get_memory_bw_time_series gkt gmkt t ranks)))
  /\ (forall (gkt : string -> KernelType) (gmkt : string -> string)
             (t : Trace) (ranks : option (list Z)) (r : Z) (df : list MemBwRow),
         In (r, df) (get_memory_bw_time_series gkt gmkt t ranks)
         <-> In r (default_ranks ranks)
             /\ _get_memory_bw_time_series_for_rank gkt gmkt t r = Some df)
  /\ (forall (gkt : string -> KernelType) (gmkt : string -> string)
             (t : Trace) (ranks : option (list Z)) (r : Z) (df : list MemBwRow),
         In (r, df) (get_memory_bw_time_series gkt gmkt t ranks) -> df <> [])
  /\ (forall (gkt : string -> KernelType) (gmkt : string -> string) (t : Trace) (r : Z),
         _get_memory_bw_time_series_for_rank gkt gmkt t r = None
         <-> memcpy_kernels gkt gmkt t (get_trace t r) = []).
Proof.
  split; [|split; [|split; [|split; [|split; [|split; [|split]]]]]].
  - intros t ranks r Hnone Hin. apply in_map_iff in Hin.
    destruct Hin as ([r' df] & Hr & Hin). simpl in Hr. subst r'.
    apply In_time_series in Hin. destruct Hin as [_ Hsome]. congruence.
  - intros t ranks r df. apply In_time_series.
  - intros t ranks r df Hin. apply In_time_series in Hin.
    destruct Hin as [_ Hsome]. now apply queue_length_not_empty in Hsome.
  - apply queue_length_None.
  - intros gkt gmkt t ranks r Hnone Hin. apply in_map_iff in Hin.
    destruct Hin as ([r' df] & Hr & Hin). simpl in Hr. subst r'.
    apply In_time_series in Hin. destruct Hin as [_ Hsome]. congruence.
  - intros gkt gmkt t ranks r df. apply In_time_series.
  - intros gkt gmkt t ranks r df Hin. apply In_time_series in Hin.
    destruct Hin as [_ Hsome]. now apply memory_bw_not_empty in Hsome.
  - apply memory_bw_None.
Qed.

Lemma rank_without_rows_is_absent_witness :
  ~ In 0 (map fst (get_queue_length_time_series lone_launch_trace None))
  /\ ~ In 0 (map fst (get_memory_bw_time_series classify channel scenario_A (Some [0; 0])))
  /\ [mkQueueLengthRow 0 15 (Some 0) (Some 7) (Some 0) (-1)] <> []
  /\ [mkMemBwRow 100 0 "Memcpy HtoD" 8; mkMemBwRow 101 0 "Memcpy HtoD" 0] <> [].
Proof.
  destruct rank_without_rows_is_absent as (Hq & _ & Hqne & _ & Hb & _ & Hbne & _).
  split; [|split; [|split]].
  - apply Hq. reflexivity.
  - apply Hb. reflexivity.
  - apply (Hqne lone_kernel_trace (Some [0; 1]) 0). simpl. left. reflexivity.
  - apply (Hbne classify channel instant_copy_trace None 0). simpl. left. reflexivity.
Defined.

(** ** The columns of the returned frames *)

Lemma result_row_shape (t : Trace) (trace_df : list Event) (r : StreamRow) :
  In r (concat (result_df_list t trace_df)) ->
  exists p th s : Z,
    d_pid (s_delta r) = Some p /\ d_tid (s_delta r) = Some th /\ d_stream (s_delta r) = Some s.
Proof.
  intros Hr. apply (in_map s_delta) in Hr.
  apply (Permutation_in _ (result_df_list_perm t trace_df)) in Hr.
  apply in_app_or in Hr. destruct Hr as [Hr | Hr]; apply in_flat_map in Hr;
    destruct Hr as (e & _ & Hr).
  - unfold enqueue_deltas in Hr. destruct (is_runtime_call t e); [|destruct Hr].
    apply in_map_iff in Hr. destruct Hr as (g & <- & _). simpl.
    do 3 eexists. repeat split; reflexivity.
  - unfold execute_deltas in Hr. destruct (is_gpu_kernel e); [|destruct Hr].
    destruct Hr as [<- | []]. simpl. do 3 eexists. repeat split; reflexivity.
Qed.

Lemma memory_bw_column_some (c : string) (r : MemBwRow) :
  memory_bw_column c r <> None <-> In c ["ts"; "pid"; "name"; "memory_bw_gbps"].
Proof.
  unfold memory_bw_column. simpl.
  destruct (String.eqb c "ts") eqn:E1; [apply String.eqb_eq in E1; subst; intuition discriminate|].
  destruct (String.eqb c "pid") eqn:E2; [apply String.eqb_eq in E2; subst; intuition discriminate|].
  destruct (String.eqb c "name") eqn:E3; [apply String.eqb_eq in E3; subst; intuition discriminate|].
  destruct (String.eqb c "memory_bw_gbps") eqn:E4;
    [apply String.eqb_eq in E4; subst; intuition discriminate|].
  apply String.eqb_neq in E1, E2, E3, E4. intuition congruence.
Qed.

(** C6, as stated, fails: the rows of the bandwidth frame of Scenario C
    have no thread id. *)
Lemma memory_bw_rows_have_no_tid :
  let out := [mkMemBwRow 0 0 "Memcpy HtoD" 4; mkMemBwRow 5 0 "Memcpy HtoD" 10;
              mkMemBwRow 10 0 "Memcpy HtoD" 6; mkMemBwRow 15 0 "Memcpy HtoD" 0] in
  _get_memory_bw_time_series_for_rank classify channel scenario_C 0 = Some out
  /\ Forall (fun r => memory_bw_column "tid" r = None) out.
Proof. split; [reflexivity|]. repeat constructor. Qed.

(** C6, amended: every row of the queue length frame has a number in each
    of the five columns ts, pid, tid, stream and queue_length; every row of
    the bandwidth frame has the four columns ts, pid, name and
    memory_bw_gbps, and no other: it has no tid. *)
Theorem time_series_columns :
  (forall (t : Trace) (rank : Z) (out : list QueueLengthRow) (row : QueueLengthRow)
          (c : string),
      _get_queue_length_time_series_for_rank t rank = Some out ->
      In row out ->
      In c ["ts"; "pid"; "tid"; "stream"; "queue_length"] ->
      exists z : Z, queue_length_column c row = Some (Int z))
  /\ (forall (gkt : string -> KernelType) (gmkt : string -> string)
             (t : Trace) (rank : Z) (out : list MemBwRow) (row : MemBwRow),
         _get_memory_bw_time_series_for_rank gkt gmkt t rank = Some out ->
         In row out ->
         memory_bw_column "ts" row = Some (Int (b_ts row))
         /\ memory_bw_column "pid" row = Some (Int (b_pid row))
         /\ memory_bw_column "name" row = Some (Str (b_name row))
         /\ memory_bw_column "memory_bw_gbps" row = Some (Float (b_memory_bw_gbps row))
         /\ memory_bw_column "tid" row = None
         /\ (forall c : string,
                memory_bw_column c row <> None
                <-> In c ["ts"; "pid"; "name"; "memory_bw_gbps"])).
Proof.
  split.
  - intros t rank out row c H Hrow Hc.
    apply queue_length_result in H. destruct H as [-> _].
    apply in_map_iff in Hrow. destruct Hrow as (r & <- & Hr).
    apply result_row_shape in Hr. destruct Hr as (p & th & s & Hp & Ht & Hs).
    unfold queue_length_column, project_queue_length. simpl.
    rewrite Hp, Ht, Hs. simpl in Hc.
    destruct Hc as [<- | [<- | [<- | [<- | [<- | []]]]]]; simpl; eauto.
  - intros gkt gmkt t rank out row _ _.
    repeat split; try reflexivity; apply memory_bw_column_some.
Qed.

Lemma time_series_columns_witness :
  (exists z : Z,
      queue_length_column "tid" (mkQueueLengthRow 0 10 (Some 0) (Some 7) (Some 0) 1)
      = Some (Int z))
  /\ memory_bw_column "tid" (mkMemBwRow 0 0 "Memcpy HtoD" 4) = None.
Proof.
  split.
  - apply (proj1 time_series_columns scenario_A 0 _ _ "tid" eq_refl); simpl; auto.
  - apply (proj2 time_series_columns classify channel scenario_C 0 _ _ eq_refl).
    simpl. auto.
Defined.

(** ** Memory bandwidth: the delta rows *)

Section MemoryBandwidthDeltas.
Variable get_kernel_type : string -> KernelType.
Variable get_memory_kernel_type : string -> string.

Local Abbreviation kernels := (memcpy_kernels get_kernel_type get_memory_kernel_type).
Local Abbreviation kernel := (memcpy_kernel get_memory_kernel_type).
Local Abbreviation qualifying := (qualifies get_kernel_type).

(** [memcpy_kernels], event by event. *)
Lemma memcpy_kernels_flat_map (t : Trace) (trace_df : list Event) :
  kernels t trace_df
  = flat_map (fun e => if qualifying t e then [kernel t e] else []) trace_df.
Proof.
  unfold memcpy_kernels, gpu_kernels, qualifies.
  induction trace_df as [|e l IH]; simpl; [reflexivity|].
  destruct (is_gpu_kernel e); simpl; [|exact IH].
  destruct (is_memory_kernel get_kernel_type t e); simpl; now rewrite IH.
Qed.

Lemma memcpy_kernels_length (t : Trace) (trace_df : list Event) :
  length (kernels t trace_df) = length (filter (qualifying t) trace_df).
Proof.
  rewrite memcpy_kernels_flat_map.
  induction trace_df as [|e l IH]; simpl; [reflexivity|].
  destruct (qualifying t e); simpl; now rewrite IH.
Qed.

Lemma memcpy_kernels_ext (t t' : Trace) (trace_df : list Event) :
  (forall i, get_sym_table t' i = get_sym_table t i) ->
  kernels t' trace_df = kernels t trace_df.
Proof.
  intros H. rewrite !memcpy_kernels_flat_map. apply flat_map_ext. intros e.
  unfold qualifies, is_memory_kernel, memcpy_kernel. now rewrite !H.
Qed.

Lemma memcpy_kernels_with_dur (t : Trace) (l1 l2 : list Event) (e : Event) :
  dur e = 0 ->
  kernels t (l1 ++ with_dur e 1 :: l2) = kernels t (l1 ++ e :: l2).
Proof.
  intros He. rewrite !memcpy_kernels_flat_map, !flat_map_app. f_equal. simpl. f_equal.
  unfold qualifies, is_gpu_kernel, is_memory_kernel, memcpy_kernel.
  simpl. now rewrite He.
Qed.
End MemoryBandwidthDeltas.

Lemma int64_small (z : Z) : - 2 ^ 63 <= z < 2 ^ 63 -> int64 z = z.
Proof. intros H. unfold int64. rewrite Z.mod_small; lia. Qed.

Lemma int64_succ_neq (z : Z) : - 2 ^ 63 <= z < 2 ^ 63 -> int64 (z + 1) <> z.
Proof.
  intros H. destruct (Z.eq_dec z (2 ^ 63 - 1)) as [-> | Hz].
  - vm_compute. discriminate.
  - rewrite int64_small; lia.
Qed.

(** C4: a device-side memory event of duration 0 is treated as one of
    duration 1: its row of [memcpy_kernels] is that of the same event with
    duration 1, and the builder returns the same frame for the trace with
    the duration set to 1.  Its start delta is at [ts] and its end delta at
    the [int64] sum [ts + 1]: never the instant of its start, and [ts + 1]
    itself as long as that is an [int64].  For any duration that is not
    negative, the end delta is strictly later than the start delta when
    [ts + dur] is an [int64]. *)
Theorem zero_duration_counts_as_one :
  (forall (gkt : string -> KernelType) (gmkt : string -> string)
          (t t' : Trace) (rank : Z) (l1 l2 : list Event) (e : Event),
      dur e = 0 ->
      (forall i, get_sym_table t' i = get_sym_table t i) ->
      get_trace t rank = l1 ++ e :: l2 ->
      get_trace t' rank = l1 ++ with_dur e 1 :: l2 ->
      memcpy_kernel gmkt t e = memcpy_kernel gmkt t (with_dur e 1)
      /\ b_ts (start_row (memcpy_kernel gmkt t e)) = ts e
      /\ b_ts (end_row (memcpy_kernel gmkt t e)) = int64 (ts e + 1)
      /\ (- 2 ^ 63 <= ts e < 2 ^ 63 ->
          b_ts (end_row (memcpy_kernel gmkt t e))
          <> b_ts (start_row (memcpy_kernel gmkt t e)))
      /\ (- 2 ^ 63 <= ts e -> ts e + 1 < 2 ^ 63 ->
          b_ts (end_row (memcpy_kernel gmkt t e)) = ts e + 1)
      /\ _get_memory_bw_time_series_for_rank gkt gmkt t rank
         = _get_memory_bw_time_series_for_rank gkt gmkt t' rank)
  /\ (forall (gmkt : string -> string) (t : Trace) (e : Event),
         0 <= dur e ->
         - 2 ^ 63 <= ts e ->
         ts e + round_up_dur (dur e) < 2 ^ 63 ->
         b_ts (start_row (memcpy_kernel gmkt t e)) < b_ts (end_row (memcpy_kernel gmkt t e))).
Proof.
  split.
  - intros gkt gmkt t t' rank l1 l2 e He Hsym Ht Ht'.
    assert (Hend : b_ts (end_row (memcpy_kernel gmkt t e)) = int64 (ts e + 1)).
    { simpl. now rewrite He. }
    split; [|split; [|split; [|split; [|split]]]].
    + unfold memcpy_kernel. simpl. now rewrite He.
    + reflexivity.
    + exact Hend.
    + intros Hts. rewrite Hend. simpl. now apply int64_succ_neq.
    + intros Hlo Hhi. rewrite Hend. apply int64_small. lia.
    + unfold _get_memory_bw_time_series_for_rank, membw_result_df_list, membw_time_series.
      rewrite Ht, Ht'.
      rewrite (memcpy_kernels_ext gkt gmkt t t' _ Hsym).
      now rewrite (memcpy_kernels_with_dur gkt gmkt t l1 l2 e He).
  - intros gmkt t e He Hlo Hhi. simpl.
    assert (Hpos : 0 < round_up_dur (dur e)).
    { unfold round_up_dur. destruct (dur e =? 0) eqn:E; [lia|]. apply Z.eqb_neq in E. lia. }
    rewrite int64_small; lia.
Qed.

Lemma zero_duration_counts_as_one_witness :
  _get_memory_bw_time_series_for_rank classify channel instant_copy_trace 0
  = Some [mkMemBwRow 100 0 "Memcpy HtoD" 8; mkMemBwRow 101 0 "Memcpy HtoD" 0]
  /\ b_ts (end_row (memcpy_kernel channel instant_copy_trace instant_copy)) = 101
  /\ b_ts (start_row (memcpy_kernel channel instant_copy_trace instant_copy))
     < b_ts (end_row (memcpy_kernel channel instant_copy_trace instant_copy)).
Proof.
  destruct zero_duration_counts_as_one as [H0 Hlt].
  destruct (H0 classify channel instant_copy_trace
               (mkTrace (fun _ => [with_dur instant_copy 1]) sym_ids sym_names)
               0 [] [] instant_copy eq_refl (fun _ => eq_refl) eq_refl eq_refl)
    as (_ & _ & _ & _ & Hend & Heq).
  split; [rewrite Heq; reflexivity|]. split.
  - apply Hend; simpl; lia.
  - apply Hlt; simpl; [discriminate|lia|reflexivity].
Defined.

(** ** Running sums of a float column *)

Lemma cumsum_skipna_firstn (k : nat) (l : list float) :
  firstn k (cumsum_skipna l) = cumsum_skipna (firstn k l).
Proof.
  unfold cumsum_skipna.
  now rewrite firstn_map, combine_firstn, cumsum_firstn, firstn_map.
Qed.

Lemma cumsum_from_last {V : Type} (add : V -> V -> V) (acc d : V) (l : list V) :
  last (acc :: cumsum_from add acc l) d = fold_left add l acc.
Proof.
  revert acc. induction l as [|x l IH]; intros acc; [reflexivity|].
  change (last (acc :: cumsum_from add acc (x :: l)) d)
    with (last (add acc x :: cumsum_from add (add acc x) l) d).
  now rewrite IH.
Qed.

Lemma cumsum_skipna_no_nan (l : list float) :
  Forall (fun x => PrimFloat.is_nan x = false) l ->
  cumsum_skipna l = cumsum PrimFloat.add l.
Proof.
  intros H. unfold cumsum_skipna.
  assert (Hfill : map fill_zero l = l).
  { induction H as [|x l Hx _ IH]; simpl; [reflexivity|].
    unfold fill_zero at 1. now rewrite Hx, IH. }
  rewrite Hfill. clear Hfill.
  assert (Hlen : length (cumsum PrimFloat.add l) = length l) by apply cumsum_length.
  revert Hlen. generalize (cumsum PrimFloat.add l) as c.
  induction H as [|x l Hx _ IH]; intros [|y c] Hlen; try discriminate Hlen.
  - reflexivity.
  - cbn [combine map fst snd]. rewrite Hx. f_equal. apply IH.
    cbn [length] in Hlen. congruence.
Qed.

(** Without a NaN, the running sum is the sum of the column taken from
    the first row on, each addition rounded. *)
Lemma running_sum_fold (x : float) (l : list float) :
  Forall (fun y => PrimFloat.is_nan y = false) (x :: l) ->
  running_sum (x :: l) = fold_left PrimFloat.add l x.
Proof.
  intros H. unfold running_sum. rewrite (cumsum_skipna_no_nan _ H).
  apply cumsum_from_last.
Qed.

(** In a sorted frame, the rows at or before [T] are a prefix. *)
Lemma sorted_filter_le_firstn {R : Type} (f : R -> Z) (T : Z) (l : list R) :
  StronglySorted (le_by f) l ->
  filter (fun r => f r <=? T) l
  = firstn (length (filter (fun r => f r <=? T) l)) l.
Proof.
  induction 1 as [|x l Hl IH Hx]; simpl; [reflexivity|].
  destruct (f x <=? T) eqn:E; simpl; [now rewrite <- IH|].
  apply Z.leb_gt in E.
  replace (filter (fun r => f r <=? T) l) with (@nil R); [reflexivity|].
  symmetry. clear IH Hl. induction l as [|y l IH]; simpl; [reflexivity|].
  inversion Hx as [|? ? Hy Hx']; subst. unfold le_by in Hy.
  replace (f y <=? T) with false by (symmetry; apply Z.leb_gt; lia).
  now apply IH.
Qed.

Lemma filter_length_map {A B : Type} (p : B -> bool) (f : A -> B) (l : list A) :
  length (filter (fun x => p (f x)) l) = length (filter p (map f l)).
Proof. now rewrite filter_map_comm, length_map. Qed.

(** Taking the rows at or before [T] commutes with the running sum. *)
Lemma with_cumsum_bw_filter_le (T : Z) (G : list MemBwRow) :
  StronglySorted (le_by b_ts) G ->
  map b_memory_bw_gbps (filter (fun r => b_ts r <=? T) (with_cumsum_bw G))
  = cumsum_skipna (map b_memory_bw_gbps (filter (fun r => b_ts r <=? T) G)).
Proof.
  intros HG. destruct (with_cumsum_bw_columns G) as (Hts & _ & _ & Hbw).
  assert (HG' : StronglySorted (le_by b_ts) (with_cumsum_bw G)).
  { apply (StronglySorted_map (fun z => z) b_ts). rewrite Hts.
    now apply (StronglySorted_map (fun z => z) b_ts). }
  rewrite (sorted_filter_le_firstn b_ts T _ HG').
  rewrite (sorted_filter_le_firstn b_ts T _ HG) at 1.
  rewrite (filter_length_map (fun z => z <=? T) b_ts), Hts.
  rewrite <- (filter_length_map (fun z => z <=? T) b_ts).
  now rewrite <- !firstn_map, Hbw, cumsum_skipna_firstn.
Qed.

(** ** Memory bandwidth: the value at a time *)

Lemma has_key_by_name (nm : string) (r : MemBwRow) :
  has_key String.compare by_name nm r = String.eqb (b_name r) nm.
Proof.
  destruct (String.eqb (b_name r) nm) eqn:E.
  - apply (has_key_true String.compare string_compare_eq). apply String.eqb_eq in E.
    unfold by_name. now rewrite E.
  - apply not_true_is_false. intros H.
    apply (has_key_true String.compare string_compare_eq) in H.
    apply String.eqb_neq in E. unfold by_name in H. congruence.
Qed.

Lemma start_end_perm (ks : list MemcpyKernel) :
  Permutation (membw_time_series_a ks ++ membw_time_series_b ks)
              (flat_map (fun k => [start_row k; end_row k]) ks).
Proof.
  unfold membw_time_series_a, membw_time_series_b.
  induction ks as [|k ks IH]; simpl; [reflexivity|].
  apply perm_skip. rewrite <- Permutation_middle. now apply perm_skip.
Qed.

Lemma concat_map_length {A B : Type} (F : list A -> list B) (ll : list (list A)) :
  (forall l, length (F l) = length l) ->
  length (concat (map F ll)) = length (concat ll).
Proof.
  intros HF. induction ll as [|l ll IH]; simpl; [reflexivity|].
  now rewrite !length_app, HF, IH.
Qed.

Lemma memory_bw_result_length (gkt : string -> KernelType) (gmkt : string -> string)
      (t : Trace) (rank : Z) (out : list MemBwRow) :
  _get_memory_bw_time_series_for_rank gkt gmkt t rank = Some out ->
  length out = length (membw_time_series gkt gmkt t (get_trace t rank)).
Proof.
  intros H. apply memory_bw_result in H. destruct H as [-> _].
  unfold membw_result_df_list. rewrite <- map_map.
  rewrite (concat_map_length with_cumsum_bw) by apply with_cumsum_bw_length.
  rewrite (Permutation_length
             (groupby_perm String.compare by_name string_compare_eq String.compare_antisym
                           string_compare_trans _)).
  now rewrite filter_all by (apply Forall_forall; reflexivity).
Qed.

(** C5, as stated, fails: the sums are float64 sums, each addition rounded.
    With two overlapping transfers at 0.1 and 0.2, once the first has ended
    the frame holds 0.1 + 0.2 - 0.1 = 0.20000000000000004, where the one
    transfer still in flight has 0.2; and the channel ends at
    2.7755575615628914e-17, not at zero. *)
Lemma bandwidth_differs_from_in_flight :
  _get_memory_bw_time_series_for_rank classify channel rounding_trace 0
  = Some [mkMemBwRow 0 0 "Memcpy HtoD" 0.1;
          mkMemBwRow 50 0 "Memcpy HtoD" 0.30000000000000004;
          mkMemBwRow 100 0 "Memcpy HtoD" 0.20000000000000004;
          mkMemBwRow 150 0 "Memcpy HtoD" 2.7755575615628914e-17]
  /\ filter (in_flight classify channel rounding_trace "Memcpy HtoD" 100) rounding_events
     = [mkEvent 1 50 100 0 7 7 20 2 0 0.2]
  /\ in_flight_bw classify channel rounding_trace "Memcpy HtoD" 100 rounding_events
     = 0.2%float
  /\ (forall out,
         _get_memory_bw_time_series_for_rank classify channel rounding_trace 0 = Some out ->
         value_at "Memcpy HtoD" 100 out = 0.20000000000000004%float
         /\ value_at "Memcpy HtoD" 100 out
            <> in_flight_bw classify channel rounding_trace "Memcpy HtoD" 100 rounding_events
         /\ PrimFloat.eqb
              (value_at "Memcpy HtoD" 100 out)
              (in_flight_bw classify channel rounding_trace "Memcpy HtoD" 100 rounding_events)
            = false).
Proof.
  split; [reflexivity|]. split; [reflexivity|]. split; [reflexivity|].
  intros out H. vm_compute in H. injection H as <-.
  split; [reflexivity|]. split; [|reflexivity].
  vm_compute. discriminate.
Qed.

(** C5, amended: the bandwidth builder makes two delta rows of every
    device-side memory event, [+bandwidth] at its start and [-bandwidth] at
    the [int64] sum start + duration (the duration as rounded up from 0 to
    1), and no other row.  The value the returned frame gives a channel at a
    time [T] (that of its last row at or before [T]) is the float64 running
    sum of the channel's delta rows at or before [T], in the timestamp
    order the frame has them in; these rows are the start rows of the
    channel's transfers begun by [T] and the end rows of those ended by
    [T]: a transfer in flight at [T] has put its start row there, and any
    other transfer nothing or both its rows, whose bandwidths are opposite.
    Without a NaN the running sum is the left-to-right sum, each addition
    rounded.  Scenario C gives (0,4), (5,10), (10,6), (15,0). *)
Theorem bandwidth_is_running_sum :
  (forall (gkt : string -> KernelType) (gmkt : string -> string)
          (t : Trace) (trace_df : list Event),
      Permutation (membw_time_series gkt gmkt t trace_df)
                  (flat_map (fun k => [start_row k; end_row k])
                            (memcpy_kernels gkt gmkt t trace_df))
      /\ length (membw_time_series gkt gmkt t trace_df)
         = (2 * length (filter (qualifies gkt t) trace_df))%nat)
  /\ (forall (gkt : string -> KernelType) (gmkt : string -> string)
             (t : Trace) (rank : Z) (out : list MemBwRow),
         _get_memory_bw_time_series_for_rank gkt gmkt t rank = Some out ->
         length out = (2 * length (filter (qualifies gkt t) (get_trace t rank)))%nat)
  /\ (forall (gmkt : string -> string) (t : Trace) (e : Event),
         b_ts (start_row (memcpy_kernel gmkt t e)) = ts e
         /\ b_memory_bw_gbps (start_row (memcpy_kernel gmkt t e)) = memory_bw_gbps e
         /\ b_memory_bw_gbps (end_row (memcpy_kernel gmkt t e)) = (- memory_bw_gbps e)%float
         /\ b_ts (end_row (memcpy_kernel gmkt t e)) = int64 (ts e + round_up_dur (dur e))
         /\ (dur e <> 0 -> - 2 ^ 63 <= ts e + dur e < 2 ^ 63 ->
             b_ts (end_row (memcpy_kernel gmkt t e)) = ts e + dur e))
  /\ (forall (gkt : string -> KernelType) (gmkt : string -> string)
             (t : Trace) (rank : Z) (out : list MemBwRow) (nm : string) (T : Z),
         _get_memory_bw_time_series_for_rank gkt gmkt t rank = Some out ->
         let deltas := deltas_upto nm T (membw_time_series gkt gmkt t (get_trace t rank)) in
         value_at nm T out = running_sum (map b_memory_bw_gbps deltas)
         /\ StronglySorted (le_by b_ts) deltas
         /\ Permutation deltas
                        (flat_map (deltas_by nm T)
                                  (memcpy_kernels gkt gmkt t (get_trace t rank))))
  /\ (forall (nm : string) (T : Z) (k : MemcpyKernel),
         deltas_by nm T k
         = (if String.eqb (k_name k) nm && (k_ts k <=? T) then [start_row k] else [])
           ++ (if String.eqb (k_name k) nm && (int64 (k_ts k + k_dur k) <=? T)
               then [end_row k] else []))
  /\ (forall (gkt : string -> KernelType) (gmkt : string -> string)
             (t : Trace) (nm : string) (T : Z) (e : Event),
         qualifies gkt t e = true ->
         0 <= dur e -> - 2 ^ 63 <= ts e -> ts e + round_up_dur (dur e) < 2 ^ 63 ->
         let k := memcpy_kernel gmkt t e in
         deltas_by nm T k
         = if in_flight gkt gmkt t nm T e then [start_row k]
           else if String.eqb (k_name k) nm && (b_ts (end_row k) <=? T)
                then [start_row k; end_row k]
                else [])
  /\ (forall (x : float) (l : list float),
         Forall (fun y => PrimFloat.is_nan y = false) (x :: l) ->
         running_sum (x :: l) = fold_left PrimFloat.add l x)
  /\ option_map (fun out => map (fun r => (b_ts r, b_memory_bw_gbps r))
                                (rows_of_name "Memcpy HtoD" out))
                (_get_memory_bw_time_series_for_rank classify channel scenario_C 0)
     = Some [(0, 4%float); (5, 10%float); (10, 6%float); (15, 0%float)].
Proof.
  assert (Hperm : forall gkt gmkt t trace_df,
             Permutation (membw_time_series gkt gmkt t trace_df)
                         (flat_map (fun k => [start_row k; end_row k])
                                   (memcpy_kernels gkt gmkt t trace_df))).
  { intros. unfold membw_time_series. rewrite sort_values_perm. apply start_end_perm. }
  assert (Hlen : forall gkt gmkt t trace_df,
             length (membw_time_series gkt gmkt t trace_df)
             = (2 * length (filter (qualifies gkt t) trace_df))%nat).
  { intros. rewrite (Permutation_length (Hperm gkt gmkt t trace_df)).
    rewrite <- (memcpy_kernels_length gkt gmkt).
    induction (memcpy_kernels gkt gmkt t trace_df) as [|k ks IH]; simpl; [reflexivity|].
    rewrite IH. lia. }
  assert (Hby : forall nm T k,
             deltas_by nm T k
             = (if String.eqb (k_name k) nm && (k_ts k <=? T) then [start_row k] else [])
               ++ (if String.eqb (k_name k) nm && (int64 (k_ts k + k_dur k) <=? T)
                   then [end_row k] else [])).
  { intros nm T k. unfold deltas_by. cbn [filter]. rewrite !has_key_by_name.
    change (b_name (start_row k)) with (k_name k).
    change (b_name (end_row k)) with (k_name k).
    destruct (String.eqb (k_name k) nm); cbn [filter andb app]; [|reflexivity].
    change (b_ts (start_row k)) with (k_ts k).
    change (b_ts (end_row k)) with (int64 (k_ts k + k_dur k)).
    destruct (k_ts k <=? T); destruct (int64 (k_ts k + k_dur k) <=? T); reflexivity. }
  split; [|split; [|split; [|split; [|split; [|split; [|split; [|reflexivity]]]]]]].
  - intros. split; [apply Hperm|apply Hlen].
  - intros gkt gmkt t rank out H.
    rewrite (memory_bw_result_length gkt gmkt t rank out H). apply Hlen.
  - intros gmkt t e. split; [reflexivity|]. split; [reflexivity|]. split; [reflexivity|].
    split; [reflexivity|]. intros He Hr. simpl. unfold round_up_dur.
    apply Z.eqb_neq in He. rewrite He. now apply int64_small.
  - intros gkt gmkt t rank out nm T H deltas.
    assert (Hsorted : StronglySorted (le_by b_ts)
                        (filter (has_key String.compare by_name nm)
                                (membw_time_series gkt gmkt t (get_trace t rank))))
      by (apply StronglySorted_filter; unfold membw_time_series; apply sort_values_sorted).
    split; [|split].
    + unfold value_at, running_sum.
      rewrite (rows_of_name_result gkt gmkt t rank out nm H).
      now rewrite with_cumsum_bw_filter_le.
    + unfold deltas, deltas_upto. now apply StronglySorted_filter.
    + unfold deltas, deltas_upto, deltas_by.
      rewrite <- (filter_flat_map _ (fun k => filter _ [start_row k; end_row k])).
      apply filter_perm.
      rewrite <- (filter_flat_map _ (fun k => [start_row k; end_row k])).
      apply filter_perm, Hperm.
  - exact Hby.
  - intros gkt gmkt t nm T e Hq Hdur Hlo Hhi k. rewrite Hby. unfold in_flight. rewrite Hq.
    change (b_ts (end_row k)) with (int64 (k_ts k + k_dur k)).
    change (k_name k) with (gmkt (get_sym_table t (name e))).
    change (k_ts k) with (ts e). change (k_dur k) with (round_up_dur (dur e)).
    assert (Hpos : 0 < round_up_dur (dur e)).
    { unfold round_up_dur. destruct (dur e =? 0) eqn:E; [lia|]. apply Z.eqb_neq in E. lia. }
    rewrite int64_small by lia.
    destruct (String.eqb (gmkt (get_sym_table t (name e))) nm); cbn [andb app]; [|reflexivity].
    destruct (ts e <=? T) eqn:E1; destruct (ts e + round_up_dur (dur e) <=? T) eqn:E2;
      destruct (T <? ts e + round_up_dur (dur e)) eqn:E3; try reflexivity; exfalso;
      try apply Z.leb_le in E1; try apply Z.leb_gt in E1;
      try apply Z.leb_le in E2; try apply Z.leb_gt in E2;
      try apply Z.ltb_lt in E3; try apply Z.ltb_ge in E3; lia.
  - apply running_sum_fold.
Qed.

Lemma bandwidth_is_running_sum_witness :
  let out := [mkMemBwRow 0 0 "Memcpy HtoD" 4; mkMemBwRow 5 0 "Memcpy HtoD" 10;
              mkMemBwRow 10 0 "Memcpy HtoD" 6; mkMemBwRow 15 0 "Memcpy HtoD" 0] in
  let deltas := deltas_upto "Memcpy HtoD" 12
                            (membw_time_series classify channel scenario_C scenario_C_events) in
  value_at "Memcpy HtoD" 12 out = running_sum (map b_memory_bw_gbps deltas)
  /\ map b_memory_bw_gbps deltas = [4; 6; -4]%float
  /\ running_sum [4; 6; -4]%float = fold_left PrimFloat.add [6; -4]%float 4%float
  /\ length out = (2 * length (filter (qualifies classify scenario_C) scenario_C_events))%nat.
Proof.
  destruct bandwidth_is_running_sum as (_ & Hlen & _ & H & _ & _ & Hfold & _).
  split; [|split; [reflexivity|split]].
  - apply (H classify channel scenario_C 0 _ "Memcpy HtoD" 12 eq_refl).
  - apply Hfold. repeat constructor.
  - apply (Hlen classify channel scenario_C 0 _ eq_refl).
Defined.

(** ** The order of float64 values *)











(** ** The bandwidth summary *)

Lemma Qmin_list_spec (l : list Q) (x : Q) :
  In (Qmin_list x l) (x :: l) /\ Forall (fun v => (Qmin_list x l <= v)%Q) (x :: l).
Proof.
  revert x. induction l as [|y l IH]; intros x; unfold Qmin_list; simpl.
  - split; [now left|]. constructor; [lra|constructor].
  - specialize (IH (if Qle_bool x y then x else y)). unfold Qmin_list in IH.
    destruct IH as [Hin Hall]. inversion Hall as [|? ? Hm Hl]; subst.
    destruct (Qle_bool x y) eqn:E.
    + apply Qle_bool_iff in E. split.
      * destruct Hin as [<- | Hin]; [now left|right; now right].
      * constructor; [exact Hm|]. constructor; [lra|exact Hl].
    + assert (Hyx : (y <= x)%Q).
      { apply Qlt_le_weak, Qnot_le_lt. intros H. apply Qle_bool_iff in H. congruence. }
      split.
      * destruct Hin as [<- | Hin]; [right; now left|right; now right].
      * constructor; [lra|]. constructor; [exact Hm|exact Hl].
Qed.

Lemma Qmax_list_spec (l : list Q) (x : Q) :
  In (Qmax_list x l) (x :: l) /\ Forall (fun v => (v <= Qmax_list x l)%Q) (x :: l).
Proof.
  revert x. induction l as [|y l IH]; intros x; unfold Qmax_list; simpl.
  - split; [now left|]. constructor; [lra|constructor].
  - specialize (IH (if Qle_bool y x then x else y)). unfold Qmax_list in IH.
    destruct IH as [Hin Hall]. inversion Hall as [|? ? Hm Hl]; subst.
    destruct (Qle_bool y x) eqn:E.
    + apply Qle_bool_iff in E. split.
      * destruct Hin as [<- | Hin]; [now left|right; now right].
      * constructor; [exact Hm|]. constructor; [lra|exact Hl].
    + assert (Hxy : (x <= y)%Q).
      { apply Qlt_le_weak, Qnot_le_lt. intros H. apply Qle_bool_iff in H. congruence. }
      split.
      * destruct Hin as [<- | Hin]; [right; now left|right; now right].
      * constructor; [lra|]. constructor; [exact Hm|exact Hl].
Qed.

Section BandwidthSummaryFacts.
Variable mean : list float -> float.
Variable std : list float -> float.
Variable quantile : float -> list float -> float.

Local Abbreviation summary_of_rank := (memory_bw_summary_of_rank mean std quantile).
Local Abbreviation described := (describe_float mean std quantile).


(** The channel names of the summary of a rank, in order: those of the
    rows of positive bandwidth, ascending, each once. *)
Lemma memory_bw_summary_names (rank : Z) (rank_df : list MemBwRow) :
  map sm_name (summary_of_rank rank rank_df)
  = keys_of String.compare by_name (filter positive_bw rank_df).
Proof.
  unfold memory_bw_summary_of_rank, groupby.
  set (l := filter positive_bw rank_df).
  assert (H : forall k, In k (keys_of String.compare by_name l) ->
                        filter (has_key String.compare by_name k) l <> []).
  { intros k Hk Hnil. apply (In_keys_of String.compare by_name string_compare_eq) in Hk.
    destruct Hk as (r & Hr & Hkr).
    assert (Hin : In r (filter (has_key String.compare by_name k) l)).
    { apply filter_In. split; [exact Hr|].
      now apply (has_key_true String.compare string_compare_eq). }
    now rewrite Hnil in Hin. }
  induction (keys_of String.compare by_name l) as [|k ks IH]; [reflexivity|].
  simpl. rewrite map_app, IH by (intros k' Hk'; apply H; now right).
  unfold describe_group. simpl.
  destruct (filter (has_key String.compare by_name k) l) as [|r rs] eqn:E.
  - exfalso. apply (H k); [now left|exact E].
  - reflexivity.
Qed.
End BandwidthSummaryFacts.

Lemma filter_filter_and {A : Type} (p q : A -> bool) (l : list A) :
  filter p (filter q l) = filter (fun x => q x && p x) l.
Proof.
  induction l as [|x l IH]; simpl; [reflexivity|].
  destruct (q x); simpl; [|exact IH]. destruct (p x); now rewrite IH.
Qed.

Lemma default_ranks_idem (ranks : option (list Z)) :
  default_ranks (Some (default_ranks ranks)) = default_ranks ranks.
Proof. destruct ranks as [[|r l]|]; reflexivity. Qed.



(** ** Sorted frames *)

Lemma StronglySorted_split {R : Type} (f : R -> Z) (l1 l2 : list R) (x : R) :
  StronglySorted (le_by f) (l1 ++ x :: l2) ->
  Forall (fun r => f r <= f x) l1 /\ Forall (fun r => f x <= f r) l2.
Proof.
  induction l1 as [|y l1 IH]; simpl; intros H; inversion H as [|? ? Hl Hy]; subst.
  - split; [constructor|exact Hy].
  - destruct (IH Hl) as [H1 H2]. split; [|exact H2].
    constructor; [|exact H1].
    rewrite Forall_forall in Hy. apply Hy. apply in_or_app. right. now left.
Qed.

(** ** Queue length: every launch matched *)

Lemma length_filter_sum {A : Type} (p : A -> bool) (l : list A) :
  length (filter p l) = list_sum (map (fun x => if p x then 1%nat else 0%nat) l).
Proof. induction l as [|x l IH]; simpl; [reflexivity|]. destruct (p x); simpl; now rewrite IH. Qed.

Lemma list_sum_map_add {A : Type} (f g : A -> nat) (l : list A) :
  list_sum (map (fun x => (f x + g x)%nat) l) = (list_sum (map f l) + list_sum (map g l))%nat.
Proof. induction l as [|x l IH]; simpl; [reflexivity|]. rewrite IH. lia. Qed.

(** Counting pairs by rows or by columns. *)
Lemma count_pairs_swap {A B : Type} (p : A -> B -> bool) (la : list A) (lb : list B) :
  list_sum (map (fun a => length (filter (p a) lb)) la)
  = list_sum (map (fun b => length (filter (fun a => p a b) la)) lb).
Proof.
  induction la as [|a la IH]; simpl.
  - induction lb as [|b lb IHb]; simpl; [reflexivity|exact IHb].
  - rewrite IH, length_filter_sum, <- list_sum_map_add. f_equal. apply map_ext.
    intros b. destruct (p a b); reflexivity.
Qed.

Lemma Zsum_const (c : Z) (l : list Z) :
  Forall (fun x => x = c) l -> Zsum l = c * Z.of_nat (length l).
Proof. induction 1 as [|x l Hx Hl IH]; simpl length; simpl Zsum; [lia|]. rewrite IH, Hx. lia. Qed.

Lemma join_one_on_stream (gpus : list Event) (r : Event) (s : Z) :
  length (filter (has_key Z.compare d_stream s) (join_one gpus r))
  = length (filter (fun g => correlated r g && (stream g =? s)) gpus).
Proof.
  rewrite <- filter_filter_and. unfold join_one.
  destruct (filter (correlated r) gpus) as [|g gs]; [reflexivity|].
  rewrite filter_map_comm, length_map. f_equal. apply filter_ext. intros g'.
  now rewrite has_key_Z.
Qed.

(** The sum of the deltas of a stream: its matched launches less its GPU events. *)
Lemma stream_delta_sum (t : Trace) (trace_df : list Event) (s : Z) :
  Zsum (map d_queue (filter (has_key Z.compare d_stream s) (concat_df t trace_df)))
  = Z.of_nat (list_sum
                (map (fun g => length (filter (fun r => correlated r g && (stream g =? s))
                                              (runtime_calls t trace_df)))
                     (gpu_kernels trace_df)))
    - Z.of_nat (length (filter (fun g => stream g =? s) (gpu_kernels trace_df))).
Proof.
  unfold concat_df. rewrite filter_app, map_app.
  assert (Happ : forall l1 l2, Zsum (l1 ++ l2) = Zsum l1 + Zsum l2).
  { intros l1 l2. induction l1; simpl; lia. }
  rewrite Happ.
  assert (Hplus : Zsum (map d_queue
                     (filter (has_key Z.compare d_stream s)
                             (join_gpu (runtime_calls t trace_df) (gpu_kernels trace_df))))
                  = Z.of_nat (list_sum
                       (map (fun g => length (filter (fun r => correlated r g && (stream g =? s))
                                                     (runtime_calls t trace_df)))
                            (gpu_kernels trace_df)))).
  { rewrite (Zsum_const 1).
    - rewrite Z.mul_1_l, length_map. f_equal.
      rewrite <- (count_pairs_swap (fun r g => correlated r g && (stream g =? s))).
      unfold join_gpu. induction (runtime_calls t trace_df) as [|r rc IH]; [reflexivity|].
      simpl. now rewrite filter_app, length_app, IH, join_one_on_stream.
    - apply Forall_map. apply Forall_forall. intros d Hd. apply filter_In in Hd.
      destruct Hd as [Hd _]. unfold join_gpu in Hd. apply in_flat_map in Hd.
      destruct Hd as (r & _ & Hd). pose proof (join_one_queue (gpu_kernels trace_df) r) as H.
      rewrite Forall_forall in H. now apply H. }
  assert (Hminus : Zsum (map d_queue
                      (filter (has_key Z.compare d_stream s)
                              (map gpu_row (gpu_kernels trace_df))))
                   = - Z.of_nat (length (filter (fun g => stream g =? s)
                                                (gpu_kernels trace_df)))).
  { rewrite (Zsum_const (-1)).
    - rewrite filter_map_comm, !length_map.
      replace (filter (fun x => has_key Z.compare d_stream s (gpu_row x)) (gpu_kernels trace_df))
        with (filter (fun g => stream g =? s) (gpu_kernels trace_df)); [lia|].
      apply filter_ext. intros g. now rewrite has_key_Z.
    - apply Forall_map. apply Forall_forall. intros d Hd. apply filter_In in Hd.
      destruct Hd as [Hd _]. apply in_map_iff in Hd. now destruct Hd as (g & <- & _). }
  lia.
Qed.

(** A stream's deltas cancel when every GPU event has exactly one launch. *)
Lemma stream_deltas_cancel (t : Trace) (trace_df : list Event) (s : Z) :
  (forall g, In g (gpu_kernels trace_df) ->
             length (filter (fun r => correlation g =? correlation r)
                            (runtime_calls t trace_df)) = 1%nat) ->
  Zsum (map d_queue (filter (has_key Z.compare d_stream s) (concat_df t trace_df))) = 0.
Proof.
  intros Hone. rewrite stream_delta_sum.
  enough (list_sum
            (map (fun g => length (filter (fun r => correlated r g && (stream g =? s))
                                          (runtime_calls t trace_df)))
                 (gpu_kernels trace_df))
          = length (filter (fun g => stream g =? s) (gpu_kernels trace_df))) by lia.
  rewrite length_filter_sum.
  induction (gpu_kernels trace_df) as [|g gs IH]; [reflexivity|].
  simpl. rewrite IH by (intros g' Hg'; apply Hone; now right). f_equal.
  destruct (stream g =? s).
  - rewrite <- (Hone g (or_introl eq_refl)). f_equal. apply filter_ext. intros r.
    unfold correlated. now rewrite andb_true_r.
  - clear. induction (runtime_calls t trace_df) as [|r rc IHr]; [reflexivity|].
    simpl. now rewrite andb_false_r.
Qed.

(** X2: when every GPU event shares its correlation id with exactly one
    selected runtime call, the queue length of every stream ends at zero. *)
Theorem queue_length_returns_to_zero
        (t : Trace) (rank : Z) (out : list QueueLengthRow) (s : Z) :
  _get_queue_length_time_series_for_rank t rank = Some out ->
  (forall g, In g (gpu_kernels (get_trace t rank)) ->
             length (filter (fun r => correlation g =? correlation r)
                            (runtime_calls t (get_trace t rank))) = 1%nat) ->
  last (map q_queue_length (rows_of_stream s out)) 0 = 0.
Proof.
  intros H Hone.
  rewrite (last_queue_length t rank out s H). now apply stream_deltas_cancel.
Qed.

Lemma queue_length_returns_to_zero_witness :
  last (map q_queue_length
            (rows_of_stream 0 [mkQueueLengthRow 0 10 (Some 0) (Some 7) (Some 0) 1;
                               mkQueueLengthRow 1 15 (Some 0) (Some 7) (Some 0) 0;
                               mkQueueLengthRow 2 20 (Some 0) (Some 7) (Some 0) 1;
                               mkQueueLengthRow 3 25 (Some 0) (Some 7) (Some 0) 0])) 0 = 0.
Proof.
  apply (queue_length_returns_to_zero scenario_A 0 _ 0 eq_refl).
  intros g Hg. simpl in Hg. destruct Hg as [<- | [<- | []]]; reflexivity.
Defined.

(** ** The order of the returned frames *)

Lemma StronglySorted_app_intro {A : Type} (Rel : A -> A -> Prop) (l1 l2 : list A) :
  StronglySorted Rel l1 -> StronglySorted Rel l2 ->
  (forall x y, In x l1 -> In y l2 -> Rel x y) ->
  StronglySorted Rel (l1 ++ l2).
Proof.
  induction 1 as [|x l1 Hl IH Hx]; simpl; intros H2 Hc; [exact H2|].
  constructor.
  - apply IH; [exact H2|]. intros a b Ha Hb. apply Hc; [now right|exact Hb].
  - apply Forall_app. split; [exact Hx|].
    apply Forall_forall. intros y Hy. apply Hc; [now left|exact Hy].
Qed.

Section GroupOrder.
Context {K R' : Type} (cmp : K -> K -> comparison) (key' : R' -> option K).
Variable Rel : R' -> R' -> Prop.
Variable G : K -> list R'.
Hypothesis G_key : forall k, Forall (fun r => key' r = Some k) (G k).
Hypothesis G_sorted : forall k, StronglySorted Rel (G k).
Hypothesis Rel_keys :
  forall a b ka kb, key' a = Some ka -> key' b = Some kb -> cmp ka kb = Lt -> Rel a b.

(** Groups laid end to end in key order are in the order of (key, row). *)
Lemma concat_groups_sorted (ks : list K) :
  StronglySorted (lt_key cmp) ks -> StronglySorted Rel (concat (map G ks)).
Proof.
  induction 1 as [|k ks Hks IH Hk]; simpl; [constructor|].
  apply StronglySorted_app_intro; [apply G_sorted|exact IH|].
  intros x y Hx Hy. apply in_concat in Hy. destruct Hy as (g & Hg & Hy).
  apply in_map_iff in Hg. destruct Hg as (k' & <- & Hk').
  pose proof (G_key k) as Ha. pose proof (G_key k') as Hb.
  rewrite Forall_forall in Ha, Hb, Hk.
  apply (Rel_keys x y k k'); [now apply Ha|now apply Hb|now apply Hk].
Qed.
End GroupOrder.

(** X3: the frame the queue length builder returns is ordered by stream,
    ascending, and by timestamp within a stream. *)
Theorem queue_length_frame_order (t : Trace) (rank : Z) (out : list QueueLengthRow) :
  _get_queue_length_time_series_for_rank t rank = Some out ->
  StronglySorted stream_then_ts out.
Proof.
  intros H. apply queue_length_result in H. destruct H as [-> _].
  unfold result_df_list, groupby. rewrite map_map. simpl. rewrite concat_map, map_map.
  set (l := merged_df t (get_trace t rank)).
  apply (concat_groups_sorted Z.compare q_stream stream_then_ts
           (fun k => map project_queue_length
                         (with_queue_length (filter (has_key Z.compare d_stream k) l)))).
  - intros k. apply Forall_map. apply (Forall_map s_delta (fun d => d_stream d = Some k)).
    rewrite with_queue_length_delta.
    apply (filter_has_key_Forall Z.compare d_stream Zcompare_eq).
  - intros k.
    assert (Hk : Forall (fun r => q_stream r = Some k)
                   (map project_queue_length
                        (with_queue_length (filter (has_key Z.compare d_stream k) l)))).
    { apply Forall_map. apply (Forall_map s_delta (fun d => d_stream d = Some k)).
      rewrite with_queue_length_delta.
      apply (filter_has_key_Forall Z.compare d_stream Zcompare_eq). }
    assert (Hs : StronglySorted (le_by q_ts)
                   (map project_queue_length
                        (with_queue_length (filter (has_key Z.compare d_stream k) l)))).
    { apply StronglySorted_map. apply (StronglySorted_map d_ts s_delta).
      rewrite with_queue_length_delta. apply StronglySorted_filter, sort_values_sorted. }
    induction Hs as [|x xs Hxs IH Hx]; [constructor|].
    inversion Hk as [|? ? Hkx Hkxs]; subst.
    constructor; [now apply IH|].
    rewrite Forall_forall in Hx, Hkxs. apply Forall_forall. intros y Hy.
    unfold stream_then_ts. rewrite Hkx, (Hkxs y Hy). right. split; [reflexivity|].
    now apply Hx.
  - intros a b ka kb Ha Hb Hlt. unfold stream_then_ts. rewrite Ha, Hb. left.
    now apply Z.compare_lt_iff.
  - apply (keys_of_sorted Z.compare d_stream Zcompare_eq Zcompare_antisym Zcompare_trans).
Qed.

Lemma queue_length_frame_order_witness :
  StronglySorted stream_then_ts
    [mkQueueLengthRow 0 10 (Some 0) (Some 7) (Some 0) 1;
     mkQueueLengthRow 1 15 (Some 0) (Some 7) (Some 0) 0;
     mkQueueLengthRow 0 10 (Some 0) (Some 8) (Some 1) 1;
     mkQueueLengthRow 2 16 (Some 0) (Some 8) (Some 1) 0].
Proof. apply (queue_length_frame_order twin_trace 0). reflexivity. Defined.

(** X4: the frame the bandwidth builder returns is ordered by channel
    name, ascending, and by timestamp within a channel. *)
Theorem memory_bw_frame_order
        (gkt : string -> KernelType) (gmkt : string -> string)
        (t : Trace) (rank : Z) (out : list MemBwRow) :
  _get_memory_bw_time_series_for_rank gkt gmkt t rank = Some out ->
  StronglySorted name_then_ts out.
Proof.
  intros H. apply memory_bw_result in H. destruct H as [-> _].
  unfold membw_result_df_list, groupby. rewrite map_map. simpl.
  set (l := membw_time_series gkt gmkt t (get_trace t rank)).
  assert (Hkey : forall k, Forall (fun r => by_name r = Some k)
                   (with_cumsum_bw (filter (has_key String.compare by_name k) l))).
  { intros k.
    destruct (with_cumsum_bw_columns (filter (has_key String.compare by_name k) l))
      as (_ & _ & Hn & _).
    apply Forall_forall. intros r Hr. apply (in_map b_name) in Hr. rewrite Hn in Hr.
    apply in_map_iff in Hr. destruct Hr as (r' & Hn' & Hr').
    pose proof (filter_has_key_Forall String.compare by_name string_compare_eq k l) as Hf.
    rewrite Forall_forall in Hf. specialize (Hf r' Hr'). unfold by_name in *. congruence. }
  apply (concat_groups_sorted String.compare by_name name_then_ts
           (fun k => with_cumsum_bw (filter (has_key String.compare by_name k) l))).
  - exact Hkey.
  - intros k. specialize (Hkey k).
    assert (Hs : StronglySorted (le_by b_ts)
                   (with_cumsum_bw (filter (has_key String.compare by_name k) l))).
    { apply (StronglySorted_map (fun z => z) b_ts).
      destruct (with_cumsum_bw_columns (filter (has_key String.compare by_name k) l))
        as [-> _].
      apply (StronglySorted_map (fun z => z) b_ts).
      apply StronglySorted_filter. unfold l, membw_time_series. apply sort_values_sorted. }
    induction Hs as [|x xs Hxs IH Hx]; [constructor|].
    inversion Hkey as [|? ? Hkx Hkxs]; subst.
    constructor; [now apply IH|].
    rewrite Forall_forall in Hx, Hkxs. apply Forall_forall. intros y Hy.
    unfold name_then_ts. right. split; [|now apply Hx].
    specialize (Hkxs y Hy). unfold by_name in *. congruence.
  - intros a b ka kb Ha Hb Hlt. unfold name_then_ts. left.
    unfold by_name in *. congruence.
  - apply (keys_of_sorted String.compare by_name string_compare_eq String.compare_antisym
                          string_compare_trans).
Qed.

Lemma memory_bw_frame_order_witness :
  StronglySorted name_then_ts
    [mkMemBwRow 0 0 "Memcpy HtoD" 4; mkMemBwRow 5 0 "Memcpy HtoD" 10;
     mkMemBwRow 10 0 "Memcpy HtoD" 6; mkMemBwRow 15 0 "Memcpy HtoD" 0].
Proof. apply (memory_bw_frame_order classify channel scenario_C 0). reflexivity. Defined.

(** ** Queue length: unit steps *)

Lemma Zsum_firstn_succ (l : list Z) (k : nat) :
  (k < length l)%nat -> Zsum (firstn (S k) l) = Zsum (firstn k l) + nth k l 0.
Proof.
  revert k. induction l as [|x l IH]; intros k Hk; [simpl in Hk; lia|].
  destruct k as [|k]; [simpl; lia|].
  simpl in Hk. assert (IHk := IH k ltac:(lia)).
  unfold Zsum in *. simpl in *. lia.
Qed.

(** X5: within a stream the queue length moves by one from a row to the
    next: the first row holds 1 or -1, and every later row differs from the
    row before it by exactly 1 or -1. *)
Theorem queue_length_unit_steps
        (t : Trace) (rank : Z) (out : list QueueLengthRow) (s : Z) (k : nat) :
  _get_queue_length_time_series_for_rank t rank = Some out ->
  (k < length (rows_of_stream s out))%nat ->
  let q := fun i => nth i (map q_queue_length (rows_of_stream s out)) 0 in
  match k with
  | O => q O = 1 \/ q O = -1
  | S k' => q k - q k' = 1 \/ q k - q k' = -1
  end.
Proof.
  intros H Hk q.
  set (deltas := filter (has_key Z.compare d_stream s) (merged_df t (get_trace t rank))).
  assert (Hg : rows_of_stream s out = map project_queue_length (with_queue_length deltas))
    by (apply rows_of_stream_result; exact H).
  assert (Hq : map q_queue_length (rows_of_stream s out) = cumsum Z.add (map d_queue deltas)).
  { rewrite Hg, map_map. simpl. apply with_queue_length_cumsum. }
  assert (Hlen : length (rows_of_stream s out) = length (map d_queue deltas)).
  { now rewrite Hg, !length_map, with_queue_length_length. }
  assert (Hpm : forall i, (i < length (map d_queue deltas))%nat ->
                          nth i (map d_queue deltas) 0 = 1
                          \/ nth i (map d_queue deltas) 0 = -1).
  { intros i Hi.
    assert (Hin : In (nth i (map d_queue deltas) 0) (map d_queue deltas))
      by (apply nth_In; exact Hi).
    apply in_map_iff in Hin. destruct Hin as (d & <- & Hd).
    apply filter_In in Hd. destruct Hd as [Hd _].
    pose proof (concat_df_queue t (get_trace t rank)) as Hall.
    rewrite Forall_forall in Hall. apply Hall.
    eapply Permutation_in; [apply sort_values_perm|exact Hd]. }
  unfold q. rewrite Hq. rewrite Hlen in Hk.
  destruct k as [|k'].
  - rewrite Zcumsum_nth by exact Hk. rewrite Zsum_firstn_succ by exact Hk.
    simpl. now apply Hpm.
  - rewrite !Zcumsum_nth by lia. rewrite (Zsum_firstn_succ _ (S k')) by exact Hk.
    replace (Zsum (firstn (S k') (map d_queue deltas)) + nth (S k') (map d_queue deltas) 0
             - Zsum (firstn (S k') (map d_queue deltas)))
      with (nth (S k') (map d_queue deltas) 0) by lia.
    now apply Hpm.
Qed.

Lemma queue_length_unit_steps_witness :
  let out := [mkQueueLengthRow 0 10 (Some 0) (Some 7) (Some 0) 1;
              mkQueueLengthRow 1 15 (Some 0) (Some 7) (Some 0) 0;
              mkQueueLengthRow 2 20 (Some 0) (Some 7) (Some 0) 1;
              mkQueueLengthRow 3 25 (Some 0) (Some 7) (Some 0) 0] in
  nth 3 (map q_queue_length (rows_of_stream 0 out)) 0
  - nth 2 (map q_queue_length (rows_of_stream 0 out)) 0 = 1
  \/ nth 3 (map q_queue_length (rows_of_stream 0 out)) 0
     - nth 2 (map q_queue_length (rows_of_stream 0 out)) 0 = -1.
Proof.
  apply (queue_length_unit_steps scenario_A 0 _ 0 3 eq_refl). simpl. lia.
Defined.

(** ** The keys of the returned maps *)

Section DictOrder.
Context {V : Type} (f : Z -> V).

Local Abbreviation item := (fun r : Z => (r, f r)).

Lemma dict_set_items (r : Z) (ks : list Z) :
  dict_set r (f r) (map item ks)
  = map item (if existsb (Z.eqb r) ks then ks else ks ++ [r]).
Proof.
  induction ks as [|k ks IH]; simpl; [reflexivity|].
  rewrite (Z.eqb_sym r k). destruct (k =? r) eqn:E; simpl.
  - apply Z.eqb_eq in E. now subst.
  - rewrite IH. now destruct (existsb (Z.eqb r) ks).
Qed.

Lemma fold_dict_set_items (ranks ks : list Z) :
  fold_left (fun d rank => dict_set rank (f rank) d) ranks (map item ks)
  = map item (ks ++ first_seen ks ranks).
Proof.
  revert ks. induction ranks as [|r ranks IH]; intros ks; simpl.
  - now rewrite app_nil_r.
  - rewrite dict_set_items. destruct (existsb (Z.eqb r) ks).
    + apply IH.
    + rewrite IH, <- app_assoc. reflexivity.
Qed.

(** The comprehension lists the ranks in the order they are first met. *)
Lemma dict_comprehension_items (ranks : list Z) :
  dict_comprehension f ranks = map item (first_seen [] ranks).
Proof. apply (fold_dict_set_items ranks []). Qed.
End DictOrder.

Lemma first_seen_spec (ranks seen : list Z) :
  NoDup (first_seen seen ranks)
  /\ forall r, In r (first_seen seen ranks) <-> In r ranks /\ ~ In r seen.
Proof.
  revert seen. induction ranks as [|x ranks IH]; intros seen; simpl.
  - split; [constructor|]. intros r. tauto.
  - destruct (existsb (Z.eqb x) seen) eqn:E.
    + destruct (IH seen) as [Hnd Hin]. split; [exact Hnd|].
      apply existsb_exists in E. destruct E as (y & Hy & Exy). apply Z.eqb_eq in Exy. subst y.
      intros r. rewrite Hin. split; [tauto|]. intros [[<- | Hr] Hs]; tauto.
    + destruct (IH (seen ++ [x])) as [Hnd Hin].
      assert (Hx : ~ In x seen).
      { intros Hx. apply not_true_iff_false in E. apply E. apply existsb_exists.
        exists x. split; [exact Hx|apply Z.eqb_refl]. }
      split.
      * constructor; [|exact Hnd]. rewrite Hin. intros [_ Hn]. apply Hn.
        apply in_or_app. right. now left.
      * intros r. simpl. rewrite Hin, in_app_iff. simpl. split.
        -- intros [<- | [Hr Hn]]; [tauto|]. split; [tauto|]. tauto.
        -- intros [[<- | Hr] Hn]; [tauto|].
           destruct (Z.eq_dec x r) as [-> | Hne]; [tauto|]. right. split; [exact Hr|].
           intros [Hs | [Hxr | []]]; tauto.
Qed.

Lemma filter_not_None_keys {V : Type} (f : Z -> option V) (l : list Z) :
  map fst (filter_not_None (map (fun r => (r, f r)) l))
  = filter (fun r => match f r with Some _ => true | None => false end) l.
Proof.
  induction l as [|r l IH]; simpl; [reflexivity|].
  destruct (f r); simpl; now rewrite IH.
Qed.

Lemma NoDup_filter_keep {A : Type} (p : A -> bool) (l : list A) :
  NoDup l -> NoDup (filter p l).
Proof.
  induction 1 as [|x l Hx Hl IH]; simpl; [constructor|].
  destruct (p x); [|exact IH]. constructor; [|exact IH].
  intros Hin. apply filter_In in Hin. tauto.
Qed.

(** X7: the map [get_queue_length_time_series] returns, and the map
    [get_memory_bw_time_series] returns, list the requested ranks whose
    builder returned a frame in the order the ranks are first met in the
    request; a rank requested twice is a key once. *)
Theorem time_series_keys_in_request_order :
  (forall (t : Trace) (ranks : option (list Z)),
      map fst (get_queue_length_time_series t ranks)
      = filter (fun r => match _get_queue_length_time_series_for_rank t r with
                         | Some _ => true
                         | None => false
                         end)
               (first_seen [] (default_ranks ranks))
      /\ NoDup (map fst (get_queue_length_time_series t ranks)))
  /\ (forall (gkt : string -> KernelType) (gmkt : string -> string)
             (t : Trace) (ranks : option (list Z)),
         map fst (get_memory_bw_time_series gkt gmkt t ranks)
         = filter (fun r => match _get_memory_bw_time_series_for_rank gkt gmkt t r with
                            | Some _ => true
                            | None => false
                            end)
                  (first_seen [] (default_ranks ranks))
         /\ NoDup (map fst (get_memory_bw_time_series gkt gmkt t ranks)))
  /\ (forall ranks : list Z,
         NoDup (first_seen [] ranks)
         /\ (forall r, In r (first_seen [] ranks) <-> In r ranks)
         /\ (forall r, In r ranks -> first_seen [] (ranks ++ [r]) = first_seen [] ranks)).
Proof.
  assert (Hkeys : forall (V : Type) (f : Z -> option V) (ranks : list Z),
             map fst (filter_not_None (dict_comprehension f ranks))
             = filter (fun r => match f r with Some _ => true | None => false end)
                      (first_seen [] ranks)).
  { intros V f ranks. rewrite dict_comprehension_items. apply filter_not_None_keys. }
  split; [|split].
  - intros t ranks. unfold get_queue_length_time_series. rewrite Hkeys.
    split; [reflexivity|]. apply NoDup_filter_keep, first_seen_spec.
  - intros gkt gmkt t ranks. unfold get_memory_bw_time_series. rewrite Hkeys.
    split; [reflexivity|]. apply NoDup_filter_keep, first_seen_spec.
  - intros ranks. destruct (first_seen_spec ranks []) as [Hnd Hin].
    split; [exact Hnd|]. split; [intros r; rewrite Hin; simpl; tauto|].
    intros r Hr.
    assert (Happ : forall l seen, In r l \/ In r seen ->
                     first_seen seen (l ++ [r]) = first_seen seen l).
    { clear. induction l as [|x l IH]; intros seen H; simpl.
      - destruct H as [[] | H].
        replace (existsb (Z.eqb r) seen) with true; [reflexivity|].
        symmetry. apply existsb_exists. exists r. split; [exact H|apply Z.eqb_refl].
      - destruct (existsb (Z.eqb x) seen) eqn:E.
        + apply IH. destruct H as [[<- | H] | H]; auto.
          right. apply existsb_exists in E. destruct E as (y & Hy & E).
          apply Z.eqb_eq in E. now subst.
        + f_equal. apply IH. destruct H as [[<- | H] | H]; auto.
          * right. apply in_or_app. right. now left.
          * right. apply in_or_app. now left. }
    apply Happ. now left.
Qed.

Lemma time_series_keys_in_request_order_witness :
  first_seen [] ([0; 1] ++ [0]) = first_seen [] [0; 1].
Proof.
  destruct time_series_keys_in_request_order as (_ & _ & H).
  destruct (H [0; 1]) as (_ & _ & Hr). apply Hr. simpl. auto.
Defined.

(** ** Queue length: no negative value *)

Lemma Zsum_app (l1 l2 : list Z) : Zsum (l1 ++ l2) = Zsum l1 + Zsum l2.
Proof. induction l1 as [|x l1 IH]; simpl; lia. Qed.

Lemma Zsum_map_le {A : Type} (f g : A -> Z) (l : list A) :
  Forall (fun x => f x <= g x) l -> Zsum (map f l) <= Zsum (map g l).
Proof. induction 1 as [|x l Hx Hl IH]; simpl; lia. Qed.

Lemma Zsum_map_nonneg {A : Type} (f : A -> Z) (l : list A) :
  Forall (fun x => 0 <= f x) l -> 0 <= Zsum (map f l).
Proof. induction 1 as [|x l Hx Hl IH]; simpl; lia. Qed.

Lemma Zsum_map_nonpos {A : Type} (f : A -> Z) (l : list A) :
  Forall (fun x => f x <= 0) l -> Zsum (map f l) <= 0.
Proof. induction 1 as [|x l Hx Hl IH]; simpl; lia. Qed.

Lemma Zsum_map_add {A : Type} (f g : A -> Z) (l : list A) :
  Zsum (map (fun x => f x + g x) l) = Zsum (map f l) + Zsum (map g l).
Proof. induction l as [|x l IH]; simpl; lia. Qed.

Lemma Zsum_map_filter {A : Type} (p : A -> bool) (f : A -> Z) (l : list A) :
  Zsum (map f (filter p l)) = Zsum (map (fun x => if p x then f x else 0) l).
Proof. induction l as [|x l IH]; simpl; [reflexivity|]. destruct (p x); simpl; lia. Qed.

(** A double sum, by rows or by columns. *)
Lemma Zsum_swap {A B : Type} (w : A -> B -> Z) (la : list A) (lb : list B) :
  Zsum (map (fun a => Zsum (map (w a) lb)) la)
  = Zsum (map (fun b => Zsum (map (fun a => w a b) la)) lb).
Proof.
  induction la as [|a la IH]; simpl.
  - induction lb as [|b lb IHb]; simpl; lia.
  - rewrite IH, <- Zsum_map_add. reflexivity.
Qed.

Lemma lower_queue_at_le (T : Z) (d : DeltaRow) :
  d_ts d <= T -> lower_queue_at T d <= d_queue d.
Proof.
  intros H. unfold lower_queue_at. destruct (d_ts d <? T) eqn:E1; [lia|].
  apply Z.ltb_ge in E1. destruct (d_ts d =? T) eqn:E2; [lia|].
  apply Z.eqb_neq in E2. lia.
Qed.

Lemma lower_queue_at_nonpos (T : Z) (d : DeltaRow) :
  T <= d_ts d -> lower_queue_at T d <= 0.
Proof.
  intros H. unfold lower_queue_at. destruct (d_ts d <? T) eqn:E1.
  - apply Z.ltb_lt in E1. lia.
  - destruct (d_ts d =? T); lia.
Qed.

Lemma prefix_sum_lower_queue (S : list DeltaRow) (n : nat) :
  StronglySorted (le_by d_ts) S ->
  (forall T, 0 <= Zsum (map (lower_queue_at T) S)) ->
  0 <= Zsum (map d_queue (firstn n S)).
Proof.
  intros HS Hlow.
  destruct (firstn n S) as [|p P] eqn:E; [simpl; lia|].
  destruct (@exists_last _ (p :: P)) as (P0 & x & HP); [discriminate|].
  rewrite HP.
  assert (Hsplit : S = P0 ++ x :: skipn n S).
  { rewrite <- (firstn_skipn n S) at 1. rewrite E, HP, <- app_assoc. reflexivity. }
  rewrite Hsplit in HS. apply StronglySorted_split in HS. destruct HS as [H1 H2].
  specialize (Hlow (d_ts x)). rewrite Hsplit in Hlow.
  replace (P0 ++ x :: skipn n S) with ((P0 ++ [x]) ++ skipn n S) in Hlow
    by (rewrite <- app_assoc; reflexivity).
  rewrite map_app, Zsum_app in Hlow.
  assert (Ha : Zsum (map (lower_queue_at (d_ts x)) (P0 ++ [x]))
               <= Zsum (map d_queue (P0 ++ [x]))).
  { apply Zsum_map_le. apply Forall_app. split.
    - eapply Forall_impl; [|exact H1]. intros r Hr. now apply lower_queue_at_le.
    - constructor; [|constructor]. apply lower_queue_at_le. lia. }
  assert (Hb : Zsum (map (lower_queue_at (d_ts x)) (skipn n S)) <= 0).
  { apply Zsum_map_nonpos. eapply Forall_impl; [|exact H2].
    intros r Hr. now apply lower_queue_at_nonpos. }
  lia.
Qed.

Lemma Zcumsum_from_nonneg (acc : Z) (l : list Z) :
  (forall n, 0 <= acc + Zsum (firstn n l)) ->
  Forall (fun v => 0 <= v) (cumsum_from Z.add acc l).
Proof.
  revert acc. induction l as [|x l IH]; intros acc H; simpl; [constructor|].
  constructor.
  - specialize (H 1%nat). simpl in H. lia.
  - apply IH. intros n. specialize (H (S n)). simpl in H. lia.
Qed.

Lemma Zcumsum_nonneg (l : list Z) :
  (forall n, 0 <= Zsum (firstn n l)) -> Forall (fun v => 0 <= v) (cumsum Z.add l).
Proof.
  intros H. rewrite Zcumsum_from_zero. apply Zcumsum_from_nonneg. intros n. simpl. apply H.
Qed.

Lemma join_one_rows_on_stream (gpus : list Event) (r : Event) (s : Z) :
  filter (has_key Z.compare d_stream s) (join_one gpus r)
  = map (joined_row r) (filter (fun g => correlated r g && (stream g =? s)) gpus).
Proof.
  rewrite <- filter_filter_and. unfold join_one.
  destruct (filter (correlated r) gpus) as [|g gs]; [reflexivity|].
  rewrite filter_map_comm. f_equal. apply filter_ext. intros g'. now rewrite has_key_Z.
Qed.

Lemma Zsum_flat_map {A B : Type} (f : B -> Z) (F : A -> list B) (l : list A) :
  Zsum (map f (flat_map F l)) = Zsum (map (fun a => Zsum (map f (F a))) l).
Proof.
  induction l as [|a l IH]; simpl; [reflexivity|]. now rewrite map_app, Zsum_app, IH.
Qed.

Lemma Zsum_map_zero {A : Type} (l : list A) : Zsum (map (fun _ => 0) l) = 0.
Proof. induction l as [|a l IH]; simpl; lia. Qed.

(** With every GPU event launched strictly earlier by exactly one selected
    call, the lower bounds of the deltas of a stream add up to no less than
    zero, whatever the instant they are taken at. *)
Lemma stream_lower_sum (t : Trace) (trace_df : list Event) (s T : Z) :
  (forall g, In g (gpu_kernels trace_df) ->
             exists r, filter (fun r => correlation g =? correlation r)
                              (runtime_calls t trace_df) = [r]
                       /\ ts r < ts g) ->
  0 <= Zsum (map (lower_queue_at T)
                 (filter (has_key Z.compare d_stream s) (concat_df t trace_df))).
Proof.
  intros H. unfold concat_df. rewrite filter_app, map_app, Zsum_app.
  set (rc := runtime_calls t trace_df) in *. set (gpus := gpu_kernels trace_df) in *.
  set (W := fun r : Event => if ts r <? T then 1 else 0).
  assert (HA : Zsum (map (lower_queue_at T)
                         (filter (has_key Z.compare d_stream s) (join_gpu rc gpus)))
               = Zsum (map (fun g => Zsum (map (fun r => if correlated r g && (stream g =? s)
                                                         then W r else 0) rc)) gpus)).
  { unfold join_gpu. rewrite filter_flat_map, Zsum_flat_map.
    rewrite <- (Zsum_swap (fun r g => if correlated r g && (stream g =? s) then W r else 0)).
    f_equal. apply map_ext. intros r.
    rewrite join_one_rows_on_stream, map_map, Zsum_map_filter. f_equal.
    apply map_ext. intros g. destruct (correlated r g && (stream g =? s)); [|reflexivity].
    unfold lower_queue_at, W. simpl. destruct (ts r <? T); [reflexivity|].
    now destruct (ts r =? T). }
  assert (HB : Zsum (map (lower_queue_at T)
                         (filter (has_key Z.compare d_stream s) (map gpu_row gpus)))
               = Zsum (map (fun g => if stream g =? s
                                     then lower_queue_at T (gpu_row g) else 0) gpus)).
  { rewrite filter_map_comm, map_map, Zsum_map_filter. f_equal.
    apply map_ext. intros g. now rewrite has_key_Z. }
  rewrite HA, HB, <- Zsum_map_add. apply Zsum_map_nonneg.
  apply Forall_forall. intros g Hg. destruct (H g Hg) as (r & Hr & Hlt).
  destruct (stream g =? s).
  - erewrite (map_ext _ (fun r0 => if correlated r0 g then W r0 else 0))
      by (intros r0; now rewrite andb_true_r).
    rewrite <- Zsum_map_filter.
    change (filter (fun r0 => correlated r0 g) rc)
      with (filter (fun r0 => correlation g =? correlation r0) rc).
    rewrite Hr. unfold lower_queue_at, W. simpl.
    destruct (ts r <? T) eqn:E1; destruct (ts g <? T) eqn:E2;
      destruct (ts g =? T) eqn:E3; simpl; try lia;
      apply Z.ltb_ge in E1; apply Z.ltb_ge in E2; apply Z.eqb_eq in E3; lia.
  - erewrite (map_ext _ (fun _ => 0)) by (intros r0; now rewrite andb_false_r).
    rewrite Zsum_map_zero. lia.
Qed.

(** The running sums of a stream's deltas, taken in [merged_df] order, are
    not negative when every GPU event has exactly one launch, earlier than
    itself. *)
Lemma stream_prefix_sums_nonneg (t : Trace) (trace_df : list Event) (s : Z) :
  (forall g, In g (gpu_kernels trace_df) ->
             exists r, filter (fun r => correlation g =? correlation r)
                              (runtime_calls t trace_df) = [r]
                       /\ ts r < ts g) ->
  Forall (fun v => 0 <= v)
         (cumsum Z.add (map d_queue (filter (has_key Z.compare d_stream s)
                                            (merged_df t trace_df)))).
Proof.
  intros Hone. apply Zcumsum_nonneg. intros n. rewrite firstn_map.
  apply prefix_sum_lower_queue.
  - apply StronglySorted_filter, sort_values_sorted.
  - intros T.
    rewrite (Zsum_perm _ _ (Permutation_map _ (merged_df_stream_perm t _ s))).
    now apply stream_lower_sum.
Qed.

(** X8: when every device-side event of a rank shares its correlation id
    with exactly one selected runtime call, and that call is strictly
    earlier, no row of the frame the queue length builder returns has a
    negative queue length. *)
Theorem queue_length_never_negative (t : Trace) (rank : Z) (out : list QueueLengthRow) :
  _get_queue_length_time_series_for_rank t rank = Some out ->
  (forall g, In g (gpu_kernels (get_trace t rank)) ->
             exists r, filter (fun r => correlation g =? correlation r)
                              (runtime_calls t (get_trace t rank)) = [r]
                       /\ ts r < ts g) ->
  Forall (fun row => 0 <= q_queue_length row) out.
Proof.
  intros H Hone. apply Forall_forall. intros row Hrow.
  assert (Hs : exists s, q_stream row = Some s).
  { destruct (queue_length_result t rank out H) as [Hout _]. rewrite Hout in Hrow.
    apply in_map_iff in Hrow. destruct Hrow as (r' & <- & Hr').
    apply result_row_shape in Hr'. destruct Hr' as (_ & _ & s & _ & _ & Hs).
    exists s. exact Hs. }
  destruct Hs as (s & Hs).
  assert (Hin : In row (rows_of_stream s out)).
  { apply filter_In. split; [exact Hrow|].
    now apply (has_key_true Z.compare Zcompare_eq). }
  rewrite (rows_of_stream_result t rank out s H) in Hin.
  set (G := filter _ _) in Hin.
  apply (in_map q_queue_length) in Hin. rewrite map_map in Hin. simpl in Hin.
  change (map (fun x => s_queue_length x)) with (map s_queue_length) in Hin.
  rewrite with_queue_length_cumsum in Hin.
  assert (Hall : Forall (fun v => 0 <= v) (cumsum Z.add (map d_queue G)))
    by now apply stream_prefix_sums_nonneg.
  rewrite Forall_forall in Hall. now apply Hall.
Qed.

Lemma queue_length_never_negative_witness :
  Forall (fun row => 0 <= q_queue_length row)
         [mkQueueLengthRow 0 10 (Some 0) (Some 7) (Some 0) 1;
          mkQueueLengthRow 1 15 (Some 0) (Some 7) (Some 0) 0;
          mkQueueLengthRow 2 20 (Some 0) (Some 7) (Some 0) 1;
          mkQueueLengthRow 3 25 (Some 0) (Some 7) (Some 0) 0].
Proof.
  apply (queue_length_never_negative scenario_A 0 _ eq_refl).
  intros g Hg. simpl in Hg. destruct Hg as [<- | [<- | []]].
  - exists (mkEvent 0 10 2 100 200 (-1) 1 7 1 0). split; [reflexivity|]. simpl. lia.
  - exists (mkEvent 2 20 2 100 200 (-1) 1 8 3 0). split; [reflexivity|]. simpl. lia.
Defined.

(** ** The queue length summary *)

Lemma queue_length_summary_rows (sqrt : Q -> Q) (rank : Z) (rank_df : list QueueLengthRow) :
  map (fun row => (qs_rank row, qs_stream row, st_count (qs_stats row)))
      (queue_length_summary_of_rank sqrt rank rank_df)
  = map (fun s => (rank, s, Z.of_nat (length (rows_of_stream s rank_df))))
        (keys_of Z.compare q_stream rank_df).
Proof.
  unfold queue_length_summary_of_rank, groupby, rows_of_stream.
  assert (H : forall k, In k (keys_of Z.compare q_stream rank_df) ->
                        filter (has_key Z.compare q_stream k) rank_df <> []).
  { intros k Hk Hnil. apply (In_keys_of Z.compare q_stream Zcompare_eq) in Hk.
    destruct Hk as (r & Hr & Hkr).
    assert (Hin : In r (filter (has_key Z.compare q_stream k) rank_df)).
    { apply filter_In. split; [exact Hr|]. now apply (has_key_true Z.compare Zcompare_eq). }
    now rewrite Hnil in Hin. }
  induction (keys_of Z.compare q_stream rank_df) as [|k ks IH]; [reflexivity|].
  simpl. rewrite map_app, IH by (intros k' Hk'; apply H; now right). f_equal.
  unfold describe_stream. simpl.
  destruct (filter (has_key Z.compare q_stream k) rank_df) as [|r rs] eqn:E.
  - exfalso. apply (H k); [now left|exact E].
  - simpl. now rewrite length_map.
Qed.

Lemma time_series_nil {V : Type} (f : Z -> option V) (ranks : list Z) :
  filter_not_None (dict_comprehension f ranks) = [] <-> forall r, In r ranks -> f r = None.
Proof.
  split.
  - intros H r Hr. destruct (f r) as [v|] eqn:E; [|reflexivity].
    assert (Hin : In (r, v) (filter_not_None (dict_comprehension f ranks)))
      by (apply In_time_series; auto).
    now rewrite H in Hin.
  - intros H. destruct (filter_not_None (dict_comprehension f ranks)) as [|[r v] l] eqn:E;
      [reflexivity|].
    assert (Hin : In (r, v) (filter_not_None (dict_comprehension f ranks)))
      by (rewrite E; now left).
    apply In_time_series in Hin. destruct Hin as [Hr Hv]. rewrite (H r Hr) in Hv. discriminate.
Qed.

Lemma queue_length_rows_keyed (t : Trace) (rank : Z) (out : list QueueLengthRow) :
  _get_queue_length_time_series_for_rank t rank = Some out ->
  Forall (fun r => match q_stream r with Some _ => true | None => false end = true) out.
Proof.
  intros H. destruct (queue_length_result t rank out H) as [-> _].
  apply Forall_map. apply Forall_forall. intros r Hr.
  apply result_row_shape in Hr. destruct Hr as (_ & _ & s & _ & _ & Hs).
  simpl. now rewrite Hs.
Qed.

(** X9: [get_queue_length_summary] returns [None] exactly when no requested
    rank has a device-side event; otherwise its rows are those of the
    per-rank summaries of the time series map.  The summary of a rank has
    one row per stream of the rank's frame, in ascending stream order, with
    the rank in its key; the count of a row is the number of rows of its
    stream, and the counts add up to the number of rows of the frame: no
    row is left out. *)
Theorem queue_length_summary_counts
        (sqrt : Q -> Q) (t : Trace) (ranks : option (list Z)) :
  (get_queue_length_summary sqrt t ranks = None
   <-> forall r, In r (default_ranks ranks) -> gpu_kernels (get_trace t r) = [])
  /\ (forall (out : list QueueSummaryRow) (row : QueueSummaryRow),
         get_queue_length_summary sqrt t ranks = Some out ->
         (In row out
          <-> exists (rank : Z) (rank_df : list QueueLengthRow),
             In (rank, rank_df) (get_queue_length_time_series t ranks)
             /\ In row (queue_length_summary_of_rank sqrt rank rank_df)))
  /\ (forall (rank : Z) (rank_df : list QueueLengthRow),
         In (rank, rank_df) (get_queue_length_time_series t ranks) ->
         let summary := queue_length_summary_of_rank sqrt rank rank_df in
         StronglySorted Z.lt (map qs_stream summary)
         /\ (forall s, In s (map qs_stream summary) <-> rows_of_stream s rank_df <> [])
         /\ (forall row, In row summary ->
                         qs_rank row = rank
                         /\ st_count (qs_stats row)
                            = Z.of_nat (length (rows_of_stream (qs_stream row) rank_df)))
         /\ Zsum (map (fun row => st_count (qs_stats row)) summary)
            = Z.of_nat (length rank_df)).
Proof.
  assert (Hseries : get_queue_length_time_series t (Some (default_ranks ranks))
                    = get_queue_length_time_series t ranks).
  { unfold get_queue_length_time_series. now rewrite default_ranks_idem. }
  split; [|split].
  - unfold get_queue_length_summary. rewrite Hseries.
    unfold get_queue_length_time_series.
    destruct (filter_not_None _) as [|item items] eqn:E; simpl.
    + split; [|reflexivity]. intros _ r Hr. apply queue_length_None.
      now apply (proj1 (time_series_nil _ _) E).
    + split; [discriminate|]. intros H. exfalso.
      assert (Hnil : filter_not_None
                       (dict_comprehension (_get_queue_length_time_series_for_rank t)
                                           (default_ranks ranks)) = []).
      { apply time_series_nil. intros r Hr. apply queue_length_None. now apply H. }
      rewrite Hnil in E. discriminate.
  - intros out row H. unfold get_queue_length_summary in H. rewrite Hseries in H.
    set (items := get_queue_length_time_series t ranks) in *.
    assert (Hout : out = concat (map (fun item => queue_length_summary_of_rank
                                                    sqrt (fst item) (snd item)) items)).
    { destruct (map _ items) as [|fr frs]; [discriminate|]. congruence. }
    rewrite Hout, in_concat. split.
    + intros (fr' & Hfr & Hrow). apply in_map_iff in Hfr.
      destruct Hfr as ([rank rank_df] & <- & Hitem). eauto.
    + intros (rank & rank_df & Hitem & Hrow).
      exists (queue_length_summary_of_rank sqrt rank rank_df). split; [|exact Hrow].
      apply in_map_iff. exists (rank, rank_df). split; [reflexivity|exact Hitem].
  - intros rank rank_df Hitem summary.
    pose proof (queue_length_summary_rows sqrt rank rank_df) as Hrows. fold summary in Hrows.
    assert (Hstreams : map qs_stream summary = keys_of Z.compare q_stream rank_df).
    { apply (f_equal (map (fun p => snd (fst p)))) in Hrows.
      rewrite !map_map in Hrows. simpl in Hrows. now rewrite map_id in Hrows. }
    split; [|split; [|split]].
    + rewrite Hstreams.
      apply (keys_of_sorted Z.compare q_stream Zcompare_eq Zcompare_antisym Zcompare_trans).
    + intros s. rewrite Hstreams, (In_keys_of Z.compare q_stream Zcompare_eq). split.
      * intros (r & Hr & Hk) Hnil.
        assert (Hin : In r (rows_of_stream s rank_df)).
        { apply filter_In. split; [exact Hr|].
          now apply (has_key_true Z.compare Zcompare_eq). }
        now rewrite Hnil in Hin.
      * intros Hne. destruct (rows_of_stream s rank_df) as [|r rs] eqn:E; [congruence|].
        assert (Hin : In r (rows_of_stream s rank_df)) by (rewrite E; now left).
        apply filter_In in Hin. destruct Hin as [Hr Hk].
        exists r. split; [exact Hr|]. now apply (has_key_true Z.compare Zcompare_eq).
    + intros row Hrow.
      apply (in_map (fun row => (qs_rank row, qs_stream row, st_count (qs_stats row)))) in Hrow.
      rewrite Hrows in Hrow. apply in_map_iff in Hrow. destruct Hrow as (s & Heq & _).
      injection Heq as H1 H2 H3. rewrite <- H1, <- H3, <- H2. split; reflexivity.
    + apply (f_equal (map snd)) in Hrows. rewrite !map_map in Hrows. simpl in Hrows.
      rewrite Hrows.
      apply In_time_series in Hitem. destruct Hitem as [_ Hitem].
      pose proof (queue_length_rows_keyed t rank rank_df Hitem) as Hkeyed.
      rewrite <- (filter_all _ rank_df Hkeyed) at 2.
      rewrite <- (Permutation_length
                    (groupby_perm Z.compare q_stream Zcompare_eq Zcompare_antisym
                                  Zcompare_trans rank_df)).
      unfold groupby, rows_of_stream. rewrite map_map. simpl. clear Hrows Hstreams.
      induction (keys_of Z.compare q_stream rank_df) as [|k ks IH]; [reflexivity|].
      simpl. rewrite length_app, IH. lia.
Qed.

Lemma queue_length_summary_counts_witness :
  let rank_df := [mkQueueLengthRow 0 10 (Some 0) (Some 7) (Some 0) 1;
                  mkQueueLengthRow 1 15 (Some 0) (Some 7) (Some 0) 0;
                  mkQueueLengthRow 0 10 (Some 0) (Some 8) (Some 1) 1;
                  mkQueueLengthRow 2 16 (Some 0) (Some 8) (Some 1) 0] in
  Zsum (map (fun row => st_count (qs_stats row))
            (queue_length_summary_of_rank (fun q => q) 0 rank_df))
  = Z.of_nat (length rank_df)
  /\ map qs_stream (queue_length_summary_of_rank (fun q => q) 0 rank_df) = [0; 1].
Proof.
  split; [|reflexivity].
  destruct (queue_length_summary_counts (fun q => q) twin_trace None) as (_ & _ & H).
  refine (proj2 (proj2 (proj2 (H 0 _ _)))). simpl. left. reflexivity.
Defined.

(** ** The bandwidth summary: no rank, no row *)

Lemma memory_bw_summary_of_rank_nil
      (mean std : list float -> float) (quantile : float -> list float -> float)
      (rank : Z) (rank_df : list MemBwRow) :
  memory_bw_summary_of_rank mean std quantile rank rank_df = []
  <-> Forall (fun r => (0 <? b_memory_bw_gbps r)%float = false) rank_df.
Proof.
  assert (Hpos : filter positive_bw rank_df = []
                 <-> Forall (fun r => (0 <? b_memory_bw_gbps r)%float = false) rank_df).
  { induction rank_df as [|r l IH]; simpl; [split; constructor|].
    destruct (positive_bw r) eqn:E.
    - unfold positive_bw in E. split; [discriminate|].
      intros H. inversion H; subst. congruence.
    - rewrite IH. split.
      + intros H. constructor; [exact E|exact H].
      + intros H. now inversion H. }
  rewrite <- Hpos. split.
  - intros H. apply (f_equal (map sm_name)) in H. rewrite memory_bw_summary_names in H.
    simpl in H. apply keys_of_nil in H.
    destruct (filter positive_bw rank_df) as [|r l]; [reflexivity|].
    inversion H; subst. discriminate.
  - intros H. unfold memory_bw_summary_of_rank. now rewrite H.
Qed.

(** X10: [get_memory_bw_summary] returns [None] exactly when no requested
    rank has a device-side memory event.  When it returns a frame, the frame
    has no row exactly when no row of any rank's time series has a positive
    bandwidth: a rank without a positive row adds no row. *)
Theorem memory_bw_summary_empty
        (gkt : string -> KernelType) (gmkt : string -> string)
        (mean std : list float -> float) (quantile : float -> list float -> float)
        (t : Trace) (ranks : option (list Z)) :
  (get_memory_bw_summary gkt gmkt mean std quantile t ranks = None
   <-> forall r, In r (default_ranks ranks) ->
                 memcpy_kernels gkt gmkt t (get_trace t r) = [])
  /\ (forall out : list SummaryRow,
         get_memory_bw_summary gkt gmkt mean std quantile t ranks = Some out ->
         (out = []
          <-> forall (rank : Z) (rank_df : list MemBwRow),
             In (rank, rank_df) (get_memory_bw_time_series gkt gmkt t ranks) ->
             Forall (fun r => (0 <? b_memory_bw_gbps r)%float = false) rank_df)).
Proof.
  assert (Hseries : get_memory_bw_time_series gkt gmkt t (Some (default_ranks ranks))
                    = get_memory_bw_time_series gkt gmkt t ranks).
  { unfold get_memory_bw_time_series. now rewrite default_ranks_idem. }
  split.
  - unfold get_memory_bw_summary. rewrite Hseries. unfold get_memory_bw_time_series.
    destruct (filter_not_None _) as [|item items] eqn:E; simpl.
    + split; [|reflexivity]. intros _ r Hr. apply memory_bw_None.
      now apply (proj1 (time_series_nil _ _) E).
    + split; [discriminate|]. intros H. exfalso.
      assert (Hnil : filter_not_None
                       (dict_comprehension (_get_memory_bw_time_series_for_rank gkt gmkt t)
                                           (default_ranks ranks)) = []).
      { apply time_series_nil. intros r Hr. apply memory_bw_None. now apply H. }
      rewrite Hnil in E. discriminate.
  - intros out H. unfold get_memory_bw_summary in H. rewrite Hseries in H.
    set (items := get_memory_bw_time_series gkt gmkt t ranks) in *.
    assert (Hout : out = concat (map (fun item => memory_bw_summary_of_rank
                                                    mean std quantile (fst item) (snd item))
                                     items)).
    { destruct (map _ items) as [|fr frs]; [discriminate|]. congruence. }
    rewrite Hout, concat_nil_Forall, Forall_map, Forall_forall. split.
    + intros Hall rank rank_df Hitem. apply (memory_bw_summary_of_rank_nil mean std quantile rank).
      apply (Hall (rank, rank_df) Hitem).
    + intros Hall [rank rank_df] Hitem. apply memory_bw_summary_of_rank_nil.
      now apply (Hall rank).
Qed.

Lemma memory_bw_summary_empty_witness :
  get_memory_bw_summary classify channel (fun _ => 0%float) (fun _ => 0%float)
                        (fun _ _ => 0%float) idle_copy_trace None = Some []
  /\ (forall (rank : Z) (rank_df : list MemBwRow),
         In (rank, rank_df) (get_memory_bw_time_series classify channel idle_copy_trace None) ->
         Forall (fun r => (0 <? b_memory_bw_gbps r)%float = false) rank_df).
Proof.
  split; [reflexivity|].
  destruct (memory_bw_summary_empty classify channel (fun _ => 0%float) (fun _ => 0%float)
                                    (fun _ _ => 0%float) idle_copy_trace None)
    as [_ H].
  apply (proj1 (H [] eq_refl) eq_refl).
Defined.

(** ** Events the builders do not look at *)

(** X11: an event that is neither a selected runtime call nor a
    device-side event leaves the queue length frame as it is when it is
    removed from the trace, and so does, for the bandwidth frame, an event
    that is not a device-side memory event.  A call whose
    [index_correlation] is not positive is never selected, whatever its
    name and correlation id. *)
Theorem other_events_change_nothing :
  (forall (t t' : Trace) (rank : Z) (l1 l2 : list Event) (e : Event),
      (forall s, get_sym_id_map t' s = get_sym_id_map t s) ->
      get_trace t rank = l1 ++ e :: l2 ->
      get_trace t' rank = l1 ++ l2 ->
      is_runtime_call t e = false ->
      stream e = -1 ->
      _get_queue_length_time_series_for_rank t rank
      = _get_queue_length_time_series_for_rank t' rank)
  /\ (forall (gkt : string -> KernelType) (gmkt : string -> string)
             (t t' : Trace) (rank : Z) (l1 l2 : list Event) (e : Event),
         (forall i, get_sym_table t' i = get_sym_table t i) ->
         get_trace t rank = l1 ++ e :: l2 ->
         get_trace t' rank = l1 ++ l2 ->
         qualifies gkt t e = false ->
         _get_memory_bw_time_series_for_rank gkt gmkt t rank
         = _get_memory_bw_time_series_for_rank gkt gmkt t' rank)
  /\ (forall (t : Trace) (e : Event), index_correlation e <= 0 -> is_runtime_call t e = false).
Proof.
  split; [|split].
  - intros t t' rank l1 l2 e Hsym Ht Ht' Hcall Hs.
    unfold _get_queue_length_time_series_for_rank, result_df_list, merged_df.
    rewrite Ht, Ht', (concat_df_ext t t' (l1 ++ l2) Hsym).
    replace (concat_df t (l1 ++ e :: l2)) with (concat_df t (l1 ++ l2)); [reflexivity|].
    assert (Hg : is_gpu_kernel e = false) by (unfold is_gpu_kernel; now rewrite Hs).
    unfold concat_df, runtime_calls, gpu_kernels. rewrite !filter_app.
    cbn [filter]. now rewrite Hcall, Hg.
  - intros gkt gmkt t t' rank l1 l2 e Hsym Ht Ht' Hq.
    unfold _get_memory_bw_time_series_for_rank, membw_result_df_list, membw_time_series.
    rewrite Ht, Ht', (memcpy_kernels_ext gkt gmkt t t' _ Hsym).
    replace (memcpy_kernels gkt gmkt t (l1 ++ e :: l2))
      with (memcpy_kernels gkt gmkt t (l1 ++ l2)); [reflexivity|].
    rewrite !memcpy_kernels_flat_map, !flat_map_app. simpl. now rewrite Hq.
  - intros t e H. unfold is_runtime_call.
    replace (0 <? index_correlation e) with false; [apply andb_false_r|].
    symmetry. apply Z.ltb_ge. exact H.
Qed.

Lemma other_events_change_nothing_witness :
  _get_queue_length_time_series_for_rank
    (mkTrace (fun _ => [mkEvent 9 1 1 100 200 (-1) 1 7 0 0; lone_kernel]) sym_ids sym_names) 0
  = _get_queue_length_time_series_for_rank lone_kernel_trace 0
  /\ _get_memory_bw_time_series_for_rank classify channel
       (mkTrace (fun _ => [lone_kernel; instant_copy]) sym_ids sym_names) 0
     = _get_memory_bw_time_series_for_rank classify channel instant_copy_trace 0
  /\ is_runtime_call lone_kernel_trace (mkEvent 9 1 1 100 200 (-1) 1 7 0 0) = false.
Proof.
  destruct other_events_change_nothing as (Hq & Hb & Hi).
  split; [|split].
  - apply (Hq _ lone_kernel_trace 0 [] [lone_kernel] (mkEvent 9 1 1 100 200 (-1) 1 7 0 0));
      reflexivity.
  - apply (Hb classify channel _ instant_copy_trace 0 [] [instant_copy] lone_kernel);
      reflexivity.
  - apply Hi. simpl. lia.
Defined.

(** ** The order of the events in the trace *)

Lemma flat_map_perm {A B : Type} (f : A -> list B) (l l' : list A) :
  Permutation l l' -> Permutation (flat_map f l) (flat_map f l').
Proof.
  induction 1 as [|x l l' _ IH|x y l|l l' l'' _ IH1 _ IH2]; simpl.
  - reflexivity.
  - now apply Permutation_app_head.
  - rewrite !app_assoc. apply Permutation_app_tail, Permutation_app_comm.
  - now rewrite IH1.
Qed.

Lemma flat_map_perm_pointwise {A B : Type} (f g : A -> list B) (l : list A) :
  (forall a, Permutation (f a) (g a)) -> Permutation (flat_map f l) (flat_map g l).
Proof.
  intros H. induction l as [|a l IH]; simpl; [reflexivity|].
  now apply Permutation_app.
Qed.

Lemma join_one_perm (gpus gpus' : list Event) (r : Event) :
  Permutation gpus gpus' -> Permutation (join_one gpus r) (join_one gpus' r).
Proof.
  intros H. unfold join_one.
  pose proof (filter_perm (correlated r) _ _ H) as Hf.
  destruct (filter (correlated r) gpus) as [|g gs].
  - apply Permutation_nil in Hf. now rewrite Hf.
  - destruct (filter (correlated r) gpus') as [|g' gs'].
    + apply Permutation_sym, Permutation_nil in Hf. discriminate.
    + now apply Permutation_map.
Qed.

Lemma concat_df_perm (t : Trace) (trace_df trace_df' : list Event) :
  Permutation trace_df trace_df' ->
  Permutation (concat_df t trace_df) (concat_df t trace_df').
Proof.
  intros H. unfold concat_df, join_gpu, runtime_calls, gpu_kernels.
  apply Permutation_app.
  - rewrite (flat_map_perm _ _ _ (filter_perm (is_runtime_call t) _ _ H)).
    apply flat_map_perm_pointwise. intros r. apply join_one_perm. now apply filter_perm.
  - apply Permutation_map. now apply filter_perm.
Qed.

(** X12: the queue length frame does not depend on the order of the events
    in the trace, as long as no two deltas of a stream share a timestamp.
    (Deltas of one stream at one timestamp are left in trace order by the
    sort.) *)
Theorem queue_length_order_independent (t t' : Trace) (rank : Z) :
  (forall s, get_sym_id_map t' s = get_sym_id_map t s) ->
  Permutation (get_trace t rank) (get_trace t' rank) ->
  (forall s, NoDup (map d_ts (filter (has_key Z.compare d_stream s)
                                     (concat_df t (get_trace t rank))))) ->
  _get_queue_length_time_series_for_rank t rank
  = _get_queue_length_time_series_for_rank t' rank.
Proof.
  intros Hsym Hp Hnd.
  unfold _get_queue_length_time_series_for_rank, result_df_list, merged_df.
  rewrite (concat_df_ext t t' _ Hsym).
  rewrite (groupby_sort_perm Z.compare d_stream d_ts Zcompare_eq Zcompare_antisym
             Zcompare_trans _ (concat_df t (get_trace t' rank)));
    [reflexivity|now apply concat_df_perm|exact Hnd].
Qed.

Lemma queue_length_order_independent_witness :
  _get_queue_length_time_series_for_rank scenario_A 0
  = _get_queue_length_time_series_for_rank
      (mkTrace (fun _ => rev scenario_A_events) sym_ids (fun _ => "kernel")) 0.
Proof.
  apply queue_length_order_independent.
  - reflexivity.
  - apply Permutation_rev.
  - intros s. vm_compute concat_df. cbn [filter]. rewrite !has_key_Z. cbn [d_stream].
    destruct (0 =? s); simpl; repeat constructor; simpl; intuition discriminate.
Defined.

Lemma membw_rows_perm (gkt : string -> KernelType) (gmkt : string -> string)
      (t : Trace) (trace_df trace_df' : list Event) :
  Permutation trace_df trace_df' ->
  Permutation
    (membw_time_series_a (memcpy_kernels gkt gmkt t trace_df)
     ++ membw_time_series_b (memcpy_kernels gkt gmkt t trace_df))
    (membw_time_series_a (memcpy_kernels gkt gmkt t trace_df')
     ++ membw_time_series_b (memcpy_kernels gkt gmkt t trace_df')).
Proof.
  intros H.
  assert (Hks : Permutation (memcpy_kernels gkt gmkt t trace_df)
                            (memcpy_kernels gkt gmkt t trace_df')).
  { unfold memcpy_kernels, gpu_kernels. now apply Permutation_map, filter_perm, filter_perm. }
  unfold membw_time_series_a, membw_time_series_b.
  apply Permutation_app; now apply Permutation_map.
Qed.

(** X13: the rows of the bandwidth frame, and their order, do not depend on
    the order of the events in the trace, as long as no two rows of a
    channel (starts and ends of its transfers) share a timestamp.  (The row
    labels [ignore_index=True] hands out are not among the columns of the
    returned frame's rows.) *)
Theorem memory_bw_order_independent
        (gkt : string -> KernelType) (gmkt : string -> string)
        (t t' : Trace) (rank : Z) :
  (forall i, get_sym_table t' i = get_sym_table t i) ->
  Permutation (get_trace t rank) (get_trace t' rank) ->
  (forall nm,
      NoDup (map b_ts
                 (filter (has_key String.compare by_name nm)
                         (membw_time_series_a (memcpy_kernels gkt gmkt t (get_trace t rank))
                          ++ membw_time_series_b
                               (memcpy_kernels gkt gmkt t (get_trace t rank)))))) ->
  _get_memory_bw_time_series_for_rank gkt gmkt t rank
  = _get_memory_bw_time_series_for_rank gkt gmkt t' rank.
Proof.
  intros Hsym Hp Hnd.
  unfold _get_memory_bw_time_series_for_rank, membw_result_df_list, membw_time_series.
  rewrite (memcpy_kernels_ext gkt gmkt t t' _ Hsym).
  rewrite (groupby_sort_perm String.compare by_name b_ts string_compare_eq
             String.compare_antisym string_compare_trans _
             (membw_time_series_a (memcpy_kernels gkt gmkt t (get_trace t' rank))
              ++ membw_time_series_b (memcpy_kernels gkt gmkt t (get_trace t' rank))));
    [reflexivity|now apply membw_rows_perm|exact Hnd].
Qed.

Lemma memory_bw_order_independent_witness :
  _get_memory_bw_time_series_for_rank classify channel scenario_C 0
  = _get_memory_bw_time_series_for_rank classify channel
      (mkTrace (fun _ => rev scenario_C_events) sym_ids sym_names) 0.
Proof.
  apply memory_bw_order_independent.
  - reflexivity.
  - apply Permutation_rev.
  - intros nm.
    vm_compute memcpy_kernels. cbn [membw_time_series_a membw_time_series_b map app filter].
    rewrite !has_key_by_name. cbn [b_name start_row end_row k_name].
    destruct (String.eqb _ nm); simpl; repeat constructor; simpl; intuition discriminate.
Defined.

(** ** The queue length summary of a well-formed trace *)

Lemma In_last {A : Type} (l : list A) (d : A) : l <> [] -> In (last l d) l.
Proof.
  induction l as [|x l IH]; [congruence|]. intros _.
  destruct l as [|y l]; [now left|]. right. apply IH. discriminate.
Qed.

(** A row of the summary of one rank describes the queue lengths of the
    rows of its stream. *)
Lemma In_queue_length_summary_of_rank (sqrt : Q -> Q) (rank : Z)
      (rank_df : list QueueLengthRow) (row : QueueSummaryRow) :
  In row (queue_length_summary_of_rank sqrt rank rank_df) ->
  exists (x : Q) (l : list Q),
    map (fun r => inject_Z (q_queue_length r)) (rows_of_stream (qs_stream row) rank_df)
    = x :: l
    /\ qs_stats row = describe sqrt x l.
Proof.
  unfold queue_length_summary_of_rank, groupby. intros H.
  apply in_flat_map in H. destruct H as ([k g] & Hg & Hrow).
  apply in_map_iff in Hg. destruct Hg as (k' & [= <- <-] & _).
  unfold describe_stream in Hrow. simpl in Hrow.
  destruct (map _ (filter (has_key Z.compare q_stream k') rank_df)) as [|x l] eqn:E;
    [destruct Hrow|].
  destruct Hrow as [<- | []]. simpl. exists x, l. split; [exact E|reflexivity].
Qed.

Lemma In_queue_length_summary (sqrt : Q -> Q) (t : Trace) (ranks : option (list Z))
      (out : list QueueSummaryRow) (row : QueueSummaryRow) :
  get_queue_length_summary sqrt t ranks = Some out ->
  In row out ->
  exists (rank : Z) (rank_df : list QueueLengthRow),
    In rank (default_ranks ranks)
    /\ _get_queue_length_time_series_for_rank t rank = Some rank_df
    /\ In row (queue_length_summary_of_rank sqrt rank rank_df).
Proof.
  unfold get_queue_length_summary, get_queue_length_time_series.
  rewrite default_ranks_idem.
  set (items := filter_not_None _). intros H Hrow.
  assert (Hout : out = concat (map (fun item => queue_length_summary_of_rank
                                                  sqrt (fst item) (snd item)) items)).
  { destruct (map _ items) as [|fr frs]; [discriminate|]. congruence. }
  rewrite Hout, in_concat in Hrow. destruct Hrow as (fr & Hfr & Hrow).
  apply in_map_iff in Hfr. destruct Hfr as ([rank rank_df] & <- & Hitem).
  apply In_time_series in Hitem. destruct Hitem as [Hr Hb].
  exists rank, rank_df. auto.
Qed.

(** X14: when every device-side event of the requested ranks shares its
    correlation id with exactly one selected runtime call, and that call is
    strictly earlier, every row of the queue length summary has minimum 0
    and a maximum of at least 1: each stream is seen empty and seen busy. *)
Theorem queue_length_summary_bounds
        (sqrt : Q -> Q) (t : Trace) (ranks : option (list Z))
        (out : list QueueSummaryRow) (row : QueueSummaryRow) :
  get_queue_length_summary sqrt t ranks = Some out ->
  (forall rank g, In rank (default_ranks ranks) ->
                  In g (gpu_kernels (get_trace t rank)) ->
                  exists r, filter (fun r => correlation g =? correlation r)
                                   (runtime_calls t (get_trace t rank)) = [r]
                            /\ ts r < ts g) ->
  In row out ->
  (st_min (qs_stats row) == 0 /\ 1 <= st_max (qs_stats row))%Q.
Proof.
  intros H Hone Hrow.
  destruct (In_queue_length_summary sqrt t ranks out row H Hrow)
    as (rank & rank_df & Hrank & Hb & Hsum).
  destruct (In_queue_length_summary_of_rank sqrt rank rank_df row Hsum)
    as (x & l & Hv & ->).
  set (s := qs_stream row) in *.
  set (G := filter (has_key Z.compare d_stream s) (merged_df t (get_trace t rank))).
  assert (HV : map q_queue_length (rows_of_stream s rank_df)
               = cumsum Z.add (map d_queue G)).
  { rewrite (rows_of_stream_result t rank rank_df s Hb), map_map. simpl.
    apply with_queue_length_cumsum. }
  assert (Hxl : x :: l = map inject_Z (cumsum Z.add (map d_queue G))).
  { rewrite <- Hv, <- HV, map_map. reflexivity. }
  assert (Hnn : Forall (fun v => 0 <= v) (cumsum Z.add (map d_queue G))).
  { apply stream_prefix_sums_nonneg. intros g Hg. now apply (Hone rank g). }
  assert (Hlast : last (cumsum Z.add (map d_queue G)) 0 = 0).
  { rewrite <- HV, (last_queue_length t rank rank_df s Hb).
    apply stream_deltas_cancel. intros g Hg.
    destruct (Hone rank g Hrank Hg) as (r & -> & _). reflexivity. }
  assert (Hpm : Forall (fun d => d_queue d = 1 \/ d_queue d = -1) G).
  { apply Forall_forall. intros d Hd. apply filter_In in Hd. destruct Hd as [Hd _].
    pose proof (concat_df_queue t (get_trace t rank)) as Hall.
    rewrite Forall_forall in Hall. apply Hall.
    eapply Permutation_in; [apply sort_values_perm|exact Hd]. }
  assert (Hhead : exists d0 C', In d0 G /\ cumsum Z.add (map d_queue G) = d_queue d0 :: C').
  { destruct G as [|d0 G']; [discriminate|]. exists d0. eexists. split; [now left|reflexivity]. }
  destruct Hhead as (d0 & C' & Hd0 & HC).
  change (st_min (describe sqrt x l)) with (Qmin_list x l).
  change (st_max (describe sqrt x l)) with (Qmax_list x l).
  destruct (Qmin_list_spec l x) as [Hmin_in Hmin_le].
  destruct (Qmax_list_spec l x) as [_ Hmax_ge].
  rewrite Forall_forall in Hmin_le, Hmax_ge, Hnn, Hpm.
  split.
  - assert (H0 : In (inject_Z 0) (x :: l)).
    { rewrite Hxl. apply in_map. rewrite <- Hlast at 1. apply In_last.
      rewrite HC. discriminate. }
    pose proof (Hmin_le _ H0) as Hle.
    rewrite Hxl in Hmin_in. apply in_map_iff in Hmin_in.
    destruct Hmin_in as (v & Hv' & Hvin). pose proof (Hnn v Hvin) as Hv0.
    assert (Hge : (inject_Z 0 <= Qmin_list x l)%Q) by (rewrite <- Hv'; now rewrite <- Zle_Qle).
    change (inject_Z 0) with 0%Q in Hle, Hge. lra.
  - assert (Hd1 : d_queue d0 = 1).
    { assert (Hin : In (d_queue d0) (cumsum Z.add (map d_queue G)))
        by (rewrite HC; now left).
      pose proof (Hnn _ Hin). destruct (Hpm d0 Hd0); lia. }
    assert (H1 : In (inject_Z 1) (x :: l)).
    { rewrite Hxl, HC. left. now rewrite Hd1. }
    apply (Hmax_ge _ H1).
Qed.

Lemma queue_length_summary_bounds_witness :
  Forall (fun row => st_min (qs_stats row) == 0 /\ 1 <= st_max (qs_stats row))%Q
         [mkQueueSummaryRow 0 0 (describe (fun q => q) 1 [0; 1; 0])%Q].
Proof.
  constructor; [|constructor].
  apply (queue_length_summary_bounds (fun q => q) scenario_A None _ _ eq_refl).
  - intros rank g [<- | []] Hg. simpl in Hg. destruct Hg as [<- | [<- | []]].
    + exists (mkEvent 0 10 2 100 200 (-1) 1 7 1 0). split; [reflexivity|]. simpl. lia.
    + exists (mkEvent 2 20 2 100 200 (-1) 1 8 3 0). split; [reflexivity|]. simpl. lia.
  - now left.
Defined.

(** ** The sort kind *)

(** X15: when no two deltas of a stream share a timestamp, the queue length
    frame does not depend on how [sort_values] orders equal timestamps:
    the builder over any ascending sort returns what
    [_get_queue_length_time_series_for_rank] returns. *)
Theorem queue_length_any_sort
        (sort : list DeltaRow -> list DeltaRow) (t : Trace) (rank : Z) :
  ascending sort ->
  (forall s, NoDup (map d_ts (filter (has_key Z.compare d_stream s)
                                     (concat_df t (get_trace t rank))))) ->
  queue_length_by sort t rank = _get_queue_length_time_series_for_rank t rank.
Proof.
  intros Hsort Hnd.
  unfold queue_length_by, result_df_list_by, merged_df_by.
  unfold _get_queue_length_time_series_for_rank, result_df_list, merged_df.
  set (X := concat_df t (get_trace t rank)) in *.
  assert (Hperm : forall s, Permutation (filter (has_key Z.compare d_stream s) (sort X))
                                        (filter (has_key Z.compare d_stream s) X)).
  { intros s. apply filter_perm, Hsort. }
  rewrite (groupby_sorted_unique Z.compare d_stream d_ts Zcompare_eq Zcompare_antisym
             Zcompare_trans (sort X) (sort_values d_ts X)); [reflexivity| | | |].
  - apply Hsort.
  - apply sort_values_sorted.
  - intros s. rewrite Hperm. apply Permutation_sym, filter_perm, sort_values_perm.
  - intros s. apply (Permutation_NoDup (Permutation_map d_ts (Permutation_sym (Hperm s)))).
    apply Hnd.
Qed.

Lemma queue_length_any_sort_witness :
  queue_length_by unstable_sort scenario_A_missed 0
  = Some [mkQueueLengthRow 0 10 (Some 0) (Some 7) (Some 0) 1;
          mkQueueLengthRow 1 15 (Some 0) (Some 7) (Some 0) 0;
          mkQueueLengthRow 2 20 (Some 0) (Some 7) (Some 0) 1;
          mkQueueLengthRow 3 25 (Some 0) (Some 7) (Some 0) 0].
Proof.
  rewrite (queue_length_any_sort unstable_sort scenario_A_missed 0 ascending_unstable_sort).
  - reflexivity.
  - intros s. vm_compute concat_df. cbn [filter]. rewrite !has_key_Z. cbn [d_stream].
    destruct (0 =? s); simpl; repeat constructor; simpl; intuition discriminate.
Defined.
